(** * Webhook dataloaders of saleor/graphql/webhook/dataloaders.py

    A shallow embedding of the four [DataLoader] subclasses of the module and
    the properties of their [batch_load] methods.

    - Python dicts and [defaultdict]s are stdpp [gmap]s; a [defaultdict] read
      of an absent key is written out as "return the default and insert it".
    - A promise is represented by the way it settles ([Fulfilled] with a value
      or [Rejected] with an error); a Python exception raised inside a [then]
      callback rejects the promise that [then] returned.
    - Code of other modules (tax utilities, the subscription payload generator,
      the checkout and app loaders, the ORM) is taken as a parameter. *)

From stdpp Require Import gmap strings list fin_maps.

Open Scope Z_scope.

(* ===================================================================== *)
(** * Promises and errors *)
(* ===================================================================== *)

(** The exceptions and rejections that can surface in this module. *)
Inductive Error : Type :=
| AttributeError                  (* [app.id] evaluated on [None] *)
| KeyError (app_id : Z)           (* [apps_map[app_id]] on an absent key *)
| FetchError (msg : string)       (* a dependency loader rejected *)
| GenerationError (msg : string). (* a payload-generation promise rejected *)

(** A settled promise. *)
Inductive Promise (A : Type) : Type :=
| Fulfilled (value : A)
| Rejected (reason : Error).
Arguments Fulfilled {A} value.
Arguments Rejected {A} reason.

Definition is_fulfilled {A} (p : Promise A) : bool :=
  match p with Fulfilled _ => true | Rejected _ => false end.

(** [Promise.all(ps)]: fulfils with the list of values when every member
    fulfils (with the empty list when [ps] is empty) and rejects as soon as one
    member rejects.  The list is given in the order in which the members
    settle, so the reason is that of the first rejected member. *)
Fixpoint Promise_all {A} (ps : list (Promise A)) : Promise (list A) :=
  match ps with
  | [] => Fulfilled []
  | Fulfilled a :: rest =>
      match Promise_all rest with
      | Fulfilled l => Fulfilled (a :: l)
      | Rejected e => Rejected e
      end
  | Rejected e :: _ => Rejected e
  end.

(* ===================================================================== *)
(** * PayloadByIdLoader *)
(* ===================================================================== *)

Section PayloadByIdLoader.
Context {K : Type} `{Countable K}.
Context {EventPayload PayloadText : Type}.
(** [EventPayload.get_payload] *)
Variable get_payload : EventPayload → PayloadText.
(** [EventPayload.objects.using(...).in_bulk]: the id-to-record dict of the
    bulk fetch; any dict at all. *)
Variable in_bulk : list K → gmap K EventPayload.

(** [payloads[payload_id].get_payload() if payloads.get(payload_id) else None]:
    a model instance is always truthy, so the test is the presence test. *)
Definition PayloadByIdLoader_batch_load (keys : list K)
  : list (option PayloadText) :=
  let payloads := in_bulk keys in
  (λ payload_id,
     match payloads !! payload_id with
     | Some record => Some (get_payload record)
     | None => None
     end) <$> keys.
End PayloadByIdLoader.

(* ===================================================================== *)
(** * WebhookEventsByWebhookIdLoader and WebhooksByAppIdLoader *)
(* ===================================================================== *)

(** [d[k].append(x)] on a [defaultdict(list)]. *)
Definition defaultdict_append {K V} `{Countable K}
    (k : K) (x : V) (d : gmap K (list V)) : gmap K (list V) :=
  <[k := default [] (d !! k) ++ [x]]> d.

(** [d.get(k, [])] *)
Definition dict_get_or_empty {K V} `{Countable K}
    (d : gmap K (list V)) (k : K) : list V :=
  default [] (d !! k).

Record WebhookEvent := {
  event_pk : Z;
  webhook_id : Z;
  event_type : string
}.

Record Webhook := {
  webhook_pk : Z;
  app_id : Z;
  (** [subscription_query] is a nullable text column. *)
  subscription_query : option string
}.

(** One turn of [for row in rows: d[row.<fk>].append(row)]. *)
Definition group_step {R} (fk : R → Z) (m : gmap Z (list R)) (row : R)
  : gmap Z (list R) :=
  defaultdict_append (fk row) row m.

(** [Model.objects.filter(<fk>__in=keys)] over the rows of the table, in the
    order the database returns them. *)
Definition filter_fk_in {R} (fk : R → Z) (table : list R) (keys : list Z)
  : list R :=
  filter (λ row, fk row ∈ keys) table.

Definition WebhookEventsByWebhookIdLoader_batch_load
    (table : list WebhookEvent) (keys : list Z) : list (list WebhookEvent) :=
  let webhook_events := filter_fk_in webhook_id table keys in
  let webhook_events_map :=
    foldl (group_step webhook_id) ∅ webhook_events in
  (λ webhook_id, dict_get_or_empty webhook_events_map webhook_id) <$> keys.

Definition WebhooksByAppIdLoader_batch_load
    (table : list Webhook) (keys : list Z) : list (list Webhook) :=
  let webhooks := filter_fk_in app_id table keys in
  let webhooks_by_app_map :=
    foldl (group_step app_id) ∅ webhooks in
  (λ app_id, dict_get_or_empty webhooks_by_app_map app_id) <$> keys.

(* ===================================================================== *)
(** * PregeneratedCheckoutTaxPayloadsByCheckoutTokenLoader: data *)
(* ===================================================================== *)

(** [TaxCalculationStrategy] *)
Inductive TaxCalculationStrategy : Type := FLAT_RATES | TAX_APP.

#[global] Instance TaxCalculationStrategy_eq_dec :
  EqDecision TaxCalculationStrategy.
Proof. solve_decision. Defined.

(** A generated payload is a [dict[str, Any]]; its values are kept to JSON
    leaves, nothing below depends on them. *)
Inductive JSON : Type :=
| JNull
| JBool (b : bool)
| JNumber (n : Z)
| JString (s : string).

#[global] Instance JSON_eq_dec : EqDecision JSON.
Proof. solve_decision. Defined.

Abbreviation Payload := (gmap string JSON).
(** app id -> query hash -> payload *)
Abbreviation NestedMap := (gmap Z (gmap string Payload)).
(** checkout token -> app id -> query hash -> payload *)
Abbreviation Results := (gmap string NestedMap).

Record App := {
  App_id : Z;            (* [app.id] *)
  identifier : string    (* [app.identifier] *)
}.

#[global] Instance App_eq_dec : EqDecision App.
Proof. solve_decision. Defined.

Record Checkout (Token : Type) := {
  pk : Token;
  price_expiration : Z   (* a point in time *)
}.
Arguments pk {Token} _.
Arguments price_expiration {Token} _.

(** [CheckoutInfo]: the checkout and whatever else the tax utilities read. *)
Record CheckoutInfo (Token Extra : Type) := {
  checkout : Checkout Token;
  checkout_info_rest : Extra
}.
Arguments checkout {Token Extra} _.
Arguments checkout_info_rest {Token Extra} _.

(** Functions of other modules and what the request context fixes. *)
Record Collaborators
    (Token Extra LinesInfo TaxConfiguration CountryTaxConfiguration : Type) := {
  (** [str] on a checkout token *)
  str : Token → string;
  (** [get_webhooks_for_event(CHECKOUT_CALCULATE_TAXES)] *)
  get_webhooks_for_event : list Webhook;
  get_tax_configuration_for_checkout :
    CheckoutInfo Token Extra → LinesInfo →
    TaxConfiguration * CountryTaxConfiguration;
  get_tax_calculation_strategy :
    TaxConfiguration → CountryTaxConfiguration →
    option TaxCalculationStrategy;
  get_tax_app_id :
    TaxConfiguration → CountryTaxConfiguration → option string;
  get_subscription_query_hash : string → string;
  (** [timezone.now()]: the value of its n-th call within one [batch_load] *)
  timezone_now : nat → Z;
  (** [generate_payload_promise_from_subscription], event type and request
      context fixed: how the promise of the n-th call settles. *)
  generate_payload_promise_from_subscription :
    nat → Checkout Token → string → App → Promise (option Payload)
}.
Arguments str {_ _ _ _ _} _ _.
Arguments get_webhooks_for_event {_ _ _ _ _} _.
Arguments get_tax_configuration_for_checkout {_ _ _ _ _} _ _ _.
Arguments get_tax_calculation_strategy {_ _ _ _ _} _ _ _.
Arguments get_tax_app_id {_ _ _ _ _} _ _ _.
Arguments get_subscription_query_hash {_ _ _ _ _} _ _.
Arguments timezone_now {_ _ _ _ _} _ _.
Arguments generate_payload_promise_from_subscription {_ _ _ _ _} _ _ _ _ _.

(** One issued call of the generator: its arguments, the three values that
    [store_payload] captured as defaults, and how [promise_payload] settles. *)
Record GenerationCall (Token : Type) := {
  call_checkout : Checkout Token;     (* [subscribable_object] *)
  call_subscription_query : string;
  call_app : App;
  call_checkout_token : string;
  call_app_id : Z;
  call_query_hash : string;
  call_promise : Promise (option Payload)
}.
Arguments call_checkout {Token} _.
Arguments call_subscription_query {Token} _.
Arguments call_app {Token} _.
Arguments call_checkout_token {Token} _.
Arguments call_app_id {Token} _.
Arguments call_query_hash {Token} _.
Arguments call_promise {Token} _.

(** The (checkout token, app id, query hash) a call writes to. *)
Definition call_triple {Token} (c : GenerationCall Token)
  : string * Z * string :=
  (call_checkout_token c, call_app_id c, call_query_hash c).

(** State of the loop of [generate_payloads]. *)
Record LoopState (Token : Type) := {
  clock_reads : nat;                        (* calls of [timezone.now()] *)
  promises : list (GenerationCall Token)    (* the list [promises] *)
}.
Arguments clock_reads {Token} _.
Arguments promises {Token} _.

(** What one [batch_load] did. *)
Record Run (Token : Type) := {
  (** how the returned promise settles *)
  outcome : Promise (list NestedMap);
  (** the generation calls issued, in issue order *)
  issued : list (GenerationCall Token);
  (** [results] once the last [store_payload] has run *)
  stored : Results;
  (** [results] at the end ([return_payloads] reads a [defaultdict]) *)
  results : Results
}.
Arguments outcome {Token} _.
Arguments issued {Token} _.
Arguments stored {Token} _.
Arguments results {Token} _.

(** How the three dependency loaders settle. *)
Record Dependencies (Token Extra LinesInfo : Type) := {
  dep_checkouts_info : Promise (list (CheckoutInfo Token Extra));
  dep_lines : Promise (list LinesInfo);
  (** [AppByIdLoader] gives [None] for an app it does not find. *)
  dep_apps : Promise (list (option App))
}.
Arguments dep_checkouts_info {Token Extra LinesInfo} _.
Arguments dep_lines {Token Extra LinesInfo} _.
Arguments dep_apps {Token Extra LinesInfo} _.

(* ===================================================================== *)
(** * PregeneratedCheckoutTaxPayloadsByCheckoutTokenLoader: code *)
(* ===================================================================== *)

(** Truth value of an optional string: [None] and the empty string are
    false. *)
Definition str_truthy (s : option string) : bool :=
  match s with
  | Some (String _ _) => true
  | _ => false
  end.

(** Truth value of a generated payload: [None] and the empty dict are
    false. *)
Definition payload_truthy (payload : option Payload) : bool :=
  match payload with
  | Some p => negb (bool_decide (p = ∅))
  | None => false
  end.

(** [{app.id: app for app in apps}] *)
Fixpoint build_apps_map (apps : list (option App)) (m : gmap Z App)
  : Error + gmap Z App :=
  match apps with
  | [] => inr m
  | None :: _ => inl AttributeError
  | Some app :: rest => build_apps_map rest (<[App_id app := app]> m)
  end.

(** [webhook.subscription_query and
     (not tax_app_identifier or app.identifier == tax_app_identifier)] *)
Definition candidate_selected
    (webhook : Webhook) (app : App) (tax_app_identifier : option string)
  : bool :=
  str_truthy (subscription_query webhook)
  && (negb (str_truthy tax_app_identifier)
      || bool_decide (Some (identifier app) = tax_app_identifier)).

(** [results[checkout_token][app_id][query_hash] = payload] on the
    [defaultdict] of [defaultdict(dict)]. *)
Definition results_setitem
    (checkout_token : string) (app_id : Z) (query_hash : string)
    (payload : Payload) (results : Results) : Results :=
  let by_app := default ∅ (results !! checkout_token) in
  let by_hash := default ∅ (by_app !! app_id) in
  <[checkout_token := <[app_id := <[query_hash := payload]> by_hash]> by_app]>
    results.

Definition store_payload
    (payload : option Payload)
    (checkout_token : string) (app_id : Z) (query_hash : string)
    (results : Results) : Results :=
  match payload with
  | Some p =>
      if payload_truthy (Some p)
      then results_setitem checkout_token app_id query_hash p results
      else results
  | None => results
  end.

(** [promise_payload.then(store_payload)]: the callback runs when the promise
    fulfils, and not at all when it rejects. *)
Definition on_settle {Token} (results : Results) (c : GenerationCall Token)
  : Results :=
  match call_promise c with
  | Fulfilled payload =>
      store_payload payload
        (call_checkout_token c) (call_app_id c) (call_query_hash c) results
  | Rejected _ => results
  end.

(** The callbacks of the calls, in the order in which the calls complete. *)
Definition run_callbacks {Token} (completed : list (GenerationCall Token))
    (results : Results) : Results :=
  foldl on_settle results completed.

(** [results[k]] on the outer [defaultdict]: an absent key is created. *)
Definition defaultdict_getitem (results : Results) (k : string)
  : NestedMap * Results :=
  match results !! k with
  | Some v => (v, results)
  | None => (∅, <[k := ∅]> results)
  end.

Section Orchestrator.
Context {Token Extra LinesInfo TaxConfiguration CountryTaxConfiguration
         : Type}.
Variable env :
  Collaborators Token Extra LinesInfo TaxConfiguration
                CountryTaxConfiguration.

(** [for webhook in webhooks: ...] for one eligible checkout. *)
Fixpoint for_webhooks
    (apps_map : gmap Z App)
    (checkout_info : CheckoutInfo Token Extra)
    (tax_app_identifier : option string)
    (webhooks : list Webhook)
    (promises : list (GenerationCall Token))
  : list (GenerationCall Token) * option Error :=
  match webhooks with
  | [] => (promises, None)
  | webhook :: rest =>
      let app_id := app_id webhook in
      match apps_map !! app_id with
      | None => (promises, Some (KeyError app_id))
      | Some app =>
          if candidate_selected webhook app tax_app_identifier then
            match subscription_query webhook with
            | Some query =>
                let query_hash := get_subscription_query_hash env query in
                let checkout := checkout checkout_info in
                let checkout_token := str env (pk checkout) in
                let promise_payload :=
                  generate_payload_promise_from_subscription
                    env (length promises) checkout query app in
                for_webhooks apps_map checkout_info tax_app_identifier rest
                  (promises ++
                   [{| call_checkout := checkout;
                       call_subscription_query := query;
                       call_app := app;
                       call_checkout_token := checkout_token;
                       call_app_id := app_id;
                       call_query_hash := query_hash;
                       call_promise := promise_payload |}])
            | None =>
                (* not reached: a selected webhook has a query *)
                for_webhooks apps_map checkout_info tax_app_identifier rest
                  promises
            end
          else
            for_webhooks apps_map checkout_info tax_app_identifier rest
              promises
      end
  end.

(** The test of the outer [if] at clock value [now]. *)
Definition eligible
    (now : Z) (checkout_info : CheckoutInfo Token Extra)
    (lines_info : LinesInfo) : bool :=
  let '(tax_configuration, country_tax_configuration) :=
    get_tax_configuration_for_checkout env checkout_info lines_info in
  bool_decide
    (get_tax_calculation_strategy env tax_configuration
       country_tax_configuration = Some TAX_APP)
  && bool_decide (price_expiration (checkout checkout_info) ≤ now).

(** One turn of [for checkout_info, lines_info in zip(...)].  The clock is
    read only when the strategy test succeeded ([and] short-circuits). *)
Definition eval_checkout
    (apps_map : gmap Z App)
    (item : CheckoutInfo Token Extra * LinesInfo)
    (st : LoopState Token) : LoopState Token * option Error :=
  let '(checkout_info, lines_info) := item in
  let '(tax_configuration, country_tax_configuration) :=
    get_tax_configuration_for_checkout env checkout_info lines_info in
  let tax_strategy :=
    get_tax_calculation_strategy env tax_configuration
      country_tax_configuration in
  if bool_decide (tax_strategy = Some TAX_APP) then
    let now := timezone_now env (clock_reads st) in
    if bool_decide (price_expiration (checkout checkout_info) ≤ now) then
      let tax_app_identifier :=
        get_tax_app_id env tax_configuration country_tax_configuration in
      let '(promises', err) :=
        for_webhooks apps_map checkout_info tax_app_identifier
          (get_webhooks_for_event env) (promises st) in
      ({| clock_reads := S (clock_reads st); promises := promises' |}, err)
    else
      ({| clock_reads := S (clock_reads st); promises := promises st |},
       None)
  else (st, None).

(** The whole loop; an exception leaves it at once. *)
Fixpoint for_checkouts
    (apps_map : gmap Z App)
    (pairs : list (CheckoutInfo Token Extra * LinesInfo))
    (st : LoopState Token) : LoopState Token * option Error :=
  match pairs with
  | [] => (st, None)
  | item :: rest =>
      match eval_checkout apps_map item st with
      | (st', None) => for_checkouts apps_map rest st'
      | (st', Some e) => (st', Some e)
      end
  end.

(** [[results[str(checkout_token)] for checkout_token in keys]] *)
Fixpoint return_payloads (keys : list Token) (results : Results)
  : list NestedMap * Results :=
  match keys with
  | [] => ([], results)
  | checkout_token :: rest =>
      let '(v, results1) :=
        defaultdict_getitem results (str env checkout_token) in
      let '(vs, results2) := return_payloads rest results1 in
      (v :: vs, results2)
  end.

(** [generate_payloads(data)], followed by the settling of the promises it
    issued.  [completion] gives the order in which the issued calls
    complete; it is meant to permute its argument. *)
Definition generate_payloads
    (keys : list Token)
    (completion : list (GenerationCall Token) → list (GenerationCall Token))
    (data : list (CheckoutInfo Token Extra) * list LinesInfo
            * list (option App))
  : Run Token :=
  let '(checkouts_info, checkout_lines_info, apps) := data in
  match build_apps_map apps ∅ with
  | inl e =>
      {| outcome := Rejected e; issued := []; stored := ∅; results := ∅ |}
  | inr apps_map =>
      let '(st, err) :=
        for_checkouts apps_map (zip checkouts_info checkout_lines_info)
          {| clock_reads := 0; promises := [] |} in
      let completed := completion (promises st) in
      let stored := run_callbacks completed ∅ in
      match err with
      | Some e =>
          {| outcome := Rejected e; issued := promises st;
             stored := stored; results := stored |}
      | None =>
          match Promise_all (call_promise <$> completed) with
          | Fulfilled _payloads =>
              let '(payloads, final) := return_payloads keys stored in
              {| outcome := Fulfilled payloads; issued := promises st;
                 stored := stored; results := final |}
          | Rejected e =>
              {| outcome := Rejected e; issued := promises st;
                 stored := stored; results := stored |}
          end
      end
  end.

(** [Promise.all([checkouts_info, lines, apps])]; when more than one
    member rejects the reason kept is that of the first in the list. *)
Definition Promise_all3 {A B C}
    (a : Promise A) (b : Promise B) (c : Promise C) : Promise (A * B * C) :=
  match a, b, c with
  | Fulfilled x, Fulfilled y, Fulfilled z => Fulfilled (x, y, z)
  | Rejected e, _, _ => Rejected e
  | _, Rejected e, _ => Rejected e
  | _, _, Rejected e => Rejected e
  end.

(** [batch_load(keys)] *)
Definition batch_load
    (keys : list Token)
    (deps : Dependencies Token Extra LinesInfo)
    (completion : list (GenerationCall Token) → list (GenerationCall Token))
  : Run Token :=
  match Promise_all3 (dep_checkouts_info deps) (dep_lines deps)
          (dep_apps deps) with
  | Fulfilled data => generate_payloads keys completion data
  | Rejected e =>
      {| outcome := Rejected e; issued := []; stored := ∅; results := ∅ |}
  end.
End Orchestrator.

(* ===================================================================== *)
(** * Vocabulary of the statements *)
(* ===================================================================== *)

(** [results[t][a][h]], read without creating anything. *)
Definition lookup3 (results : Results) (triple : string * Z * string)
  : option Payload :=
  results !! triple.1.1 ≫= λ by_app,
  by_app !! triple.1.2 ≫= λ by_hash,
  by_hash !! triple.2.

(** The (app id, query hash) part of the triple of a call. *)
Definition call_key {Token} (c : GenerationCall Token) : Z * string :=
  (call_app_id c, call_query_hash c).

(** The call completes with a payload that [store_payload] keeps. *)
Definition call_stores {Token} (c : GenerationCall Token) : bool :=
  match call_promise c with
  | Fulfilled payload => payload_truthy payload
  | Rejected _ => false
  end.

(** The call's promise rejects. *)
Definition call_rejected {Token} (c : GenerationCall Token) : bool :=
  negb (is_fulfilled (call_promise c)).

Section OrchestratorVocabulary.
Context {Token Extra LinesInfo TaxConfiguration CountryTaxConfiguration
         : Type}.
Variable env :
  Collaborators Token Extra LinesInfo TaxConfiguration
                CountryTaxConfiguration.

(** The strategy resolved for a checkout. *)
Definition resolved_tax_strategy
    (checkout_info : CheckoutInfo Token Extra) (lines_info : LinesInfo)
  : option TaxCalculationStrategy :=
  let '(tax_configuration, country_tax_configuration) :=
    get_tax_configuration_for_checkout env checkout_info lines_info in
  get_tax_calculation_strategy env tax_configuration
    country_tax_configuration.

(** The preferred tax app resolved for a checkout. *)
Definition resolved_tax_app_id
    (checkout_info : CheckoutInfo Token Extra) (lines_info : LinesInfo)
  : option string :=
  let '(tax_configuration, country_tax_configuration) :=
    get_tax_configuration_for_checkout env checkout_info lines_info in
  get_tax_app_id env tax_configuration country_tax_configuration.

(** The token under which the payloads of a checkout are stored. *)
Definition checkout_token_of (checkout_info : CheckoutInfo Token Extra)
  : string :=
  str env (pk (checkout checkout_info)).

(** The selection test of a webhook, its app read from [apps_map]. *)
Definition selected_in
    (apps_map : gmap Z App) (tax_app_identifier : option string)
    (webhook : Webhook) : bool :=
  match apps_map !! app_id webhook with
  | Some app => candidate_selected webhook app tax_app_identifier
  | None => false
  end.

(** The call issued for [webhook] of [app] with query text [query] as the
    n-th call of the loop. *)
Definition issue_call
    (n : nat) (checkout_info : CheckoutInfo Token Extra)
    (webhook : Webhook) (app : App) (query : string)
  : GenerationCall Token :=
  {| call_checkout := checkout checkout_info;
     call_subscription_query := query;
     call_app := app;
     call_checkout_token := checkout_token_of checkout_info;
     call_app_id := app_id webhook;
     call_query_hash := get_subscription_query_hash env query;
     call_promise :=
       generate_payload_promise_from_subscription
         env n (checkout checkout_info) query app |}.

(** A call is the one a webhook gives rise to for a checkout. *)
Definition call_of_webhook
    (apps_map : gmap Z App) (checkout_info : CheckoutInfo Token Extra)
    (c : GenerationCall Token) (webhook : Webhook) : Prop :=
  ∃ (n : nat) (app : App) (query : string),
    apps_map !! app_id webhook = Some app
    ∧ subscription_query webhook = Some query
    ∧ c = issue_call n checkout_info webhook app query.

(** (app id, query hash) of the webhooks that have a query. *)
Definition webhook_keys (webhooks : list Webhook) : list (Z * string) :=
  omap (λ webhook,
          match subscription_query webhook with
          | Some query =>
              Some (app_id webhook, get_subscription_query_hash env query)
          | None => None
          end) webhooks.
(** The number of clock readings taken before turn [j] of the loop over
    [pairs]: one for each earlier checkout with the tax-app strategy. *)
Definition turn_clock
    (pairs : list (CheckoutInfo Token Extra * LinesInfo)) (j : nat) : nat :=
  length (filter (λ item, resolved_tax_strategy item.1 item.2 = Some TAX_APP)
            (take j pairs)).

(** Where a call of the loop comes from. *)
Definition call_origin (apps_map : gmap Z App)
    (pairs : list (CheckoutInfo Token Extra * LinesInfo)) (from : nat)
    (c : GenerationCall Token) : Prop :=
  ∃ ci li (n : nat) (w : Webhook),
    (ci, li) ∈ pairs
    ∧ (from ≤ n)%nat
    ∧ eligible env (timezone_now env n) ci li = true
    ∧ w ∈ get_webhooks_for_event env
    ∧ selected_in apps_map (resolved_tax_app_id ci li) w = true
    ∧ call_of_webhook apps_map ci c w.

End OrchestratorVocabulary.

(* ===================================================================== *)
(** * A small concrete shop *)
(* ===================================================================== *)

(** Tokens are strings; a checkout info carries its channel's tax settings
    (strategy, preferred tax app), which the tax utilities return as they
    are. *)
Module Shop.
Definition ChannelTax : Type :=
  option TaxCalculationStrategy * option string.

Definition app_p : App := {| App_id := 7; identifier := "tax.p" |}.
Definition app_q : App := {| App_id := 8; identifier := "tax.q" |}.

Definition webhook_p : Webhook :=
  {| webhook_pk := 1; app_id := 7;
     subscription_query := Some "subscription { event { taxBase } }" |}.
Definition webhook_q : Webhook :=
  {| webhook_pk := 2; app_id := 8;
     subscription_query := Some "subscription { event { lines } }" |}.
(** a second webhook of app 7 with the query of [webhook_p] *)
Definition webhook_p' : Webhook :=
  {| webhook_pk := 3; app_id := 7;
     subscription_query := Some "subscription { event { taxBase } }" |}.
(** a webhook without a subscription query *)
Definition webhook_plain : Webhook :=
  {| webhook_pk := 4; app_id := 8; subscription_query := None |}.

Definition amount_10 : Payload := {[ "amount" := JNumber 10 ]}.

Definition always (payload : Promise (option Payload))
  : nat → Checkout string → string → App → Promise (option Payload) :=
  λ _ _ _ _, payload.

Definition env (webhooks : list Webhook)
    (generate : nat → Checkout string → string → App
                → Promise (option Payload))
  : Collaborators string ChannelTax unit ChannelTax unit :=
  {| str := λ token, token;
     get_webhooks_for_event := webhooks;
     get_tax_configuration_for_checkout :=
       λ checkout_info _, (checkout_info_rest checkout_info, tt);
     get_tax_calculation_strategy := λ cfg _, cfg.1;
     get_tax_app_id := λ cfg _, cfg.2;
     get_subscription_query_hash := λ query, "h:" +:+ query;
     timezone_now := λ _, 500;
     generate_payload_promise_from_subscription := generate |}.

Definition info (token : string) (expires : Z) (tax : ChannelTax)
  : CheckoutInfo string ChannelTax :=
  {| checkout := {| pk := token; price_expiration := expires |};
     checkout_info_rest := tax |}.

(** [c1] is stale, [c2] is still valid at time 500. *)
Definition c1 := info "c1" 100 (Some TAX_APP, None).
Definition c2 := info "c2" 900 (Some TAX_APP, None).
Definition c1_prefers_p := info "c1" 100 (Some TAX_APP, Some "tax.p").
Definition c3_flat := info "c3" 100 (Some FLAT_RATES, None).

Definition deps (infos : list (CheckoutInfo string ChannelTax))
    (apps : list (option App)) : Dependencies string ChannelTax unit :=
  {| dep_checkouts_info := Fulfilled infos;
     dep_lines := Fulfilled (replicate (length infos) tt);
     dep_apps := Fulfilled apps |}.

(** calls complete in issue order, or in the reverse of it *)
Definition fifo : list (GenerationCall string) → list (GenerationCall string)
  := λ calls, calls.
Definition lifo : list (GenerationCall string) → list (GenerationCall string)
  := λ calls, reverse calls.

(** The example of the specification: two tokens, only [c1] eligible, one
    webhook of app 7 whose call completes with [amount_10]. *)
Definition example_env :=
  env [webhook_p] (always (Fulfilled (Some amount_10))).
Definition example_run : Run string :=
  batch_load example_env ["c1"; "c2"] (deps [c1; c2] [Some app_p]) fifo.
Definition example_payloads : list NestedMap :=
  [ {[ 7 := {[ "h:subscription { event { taxBase } }" := amount_10 ]} ]}; ∅ ].

(** Two webhooks of two apps; both checkouts of the request. *)
Definition two_apps_env :=
  env [webhook_p; webhook_plain; webhook_q]
      (always (Fulfilled (Some amount_10))).
Definition two_apps_map : gmap Z App := {[ 7 := app_p; 8 := app_q ]}.
Definition two_apps_run : Run string :=
  batch_load two_apps_env ["c1"; "c2"]
    (deps [c1; c2] [Some app_p; Some app_q; Some app_q]) lifo.
Definition start : LoopState string := {| clock_reads := 0; promises := [] |}.

(** The generator completes with [None]. *)
Definition declined_run : Run string :=
  batch_load (env [webhook_p] (always (Fulfilled None))) ["c1"; "c2"]
    (deps [c1; c2] [Some app_p]) fifo.

(** The generator's promise rejects. *)
Definition failing_run : Run string :=
  batch_load (env [webhook_p] (always (Rejected (GenerationError "timeout"))))
    ["c1"; "c2"] (deps [c1; c2] [Some app_p]) fifo.

(** Two webhooks of app 7 with one and the same query. *)
Definition twin_webhooks_run : Run string :=
  batch_load (env [webhook_p; webhook_p'] (always (Fulfilled (Some amount_10))))
    ["c1"] (deps [c1] [Some app_p; Some app_p]) fifo.

(** The line loader rejects. *)
Definition lines_failed : Dependencies string ChannelTax unit :=
  {| dep_checkouts_info := Fulfilled [c1; c2];
     dep_lines := Rejected (FetchError "lines");
     dep_apps := Fulfilled [Some app_p] |}.
Definition lines_failed_run : Run string :=
  batch_load example_env ["c1"; "c2"] lines_failed fifo.

(** No checkout is eligible and the app of the only webhook is gone. *)
Definition app_gone_run : Run string :=
  batch_load example_env ["c2"; "c3"] (deps [c2; c3_flat] [None]) fifo.

(** The token [c1] is asked for twice. *)
Definition repeated_token_run : Run string :=
  batch_load example_env ["c1"; "c2"; "c1"]
    (deps [c1; c2; c1] [Some app_p]) fifo.
Definition repeated_token_payloads : list NestedMap :=
  [ {[ 7 := {[ "h:subscription { event { taxBase } }" := amount_10 ]} ]};
    ∅;
    {[ 7 := {[ "h:subscription { event { taxBase } }" := amount_10 ]} ]} ].

(** Rows of the payload, webhook event and webhook tables. *)
Definition payload_rows : gmap Z string :=
  {[ 1 := "{first}"; 3 := "{third}" ]}.
Definition payload_in_bulk (keys : list Z) : gmap Z string :=
  filter (λ kv, kv.1 ∈ keys) payload_rows.
Definition event_rows : list WebhookEvent :=
  [ {| event_pk := 1; webhook_id := 20; event_type := "order_created" |};
    {| event_pk := 2; webhook_id := 10; event_type := "order_paid" |};
    {| event_pk := 3; webhook_id := 20; event_type := "order_paid" |} ].
Definition webhook_rows : list Webhook :=
  [ webhook_p; webhook_q; webhook_p'; webhook_plain ].

(** The one call of [example_run]. *)
Definition example_call : GenerationCall string :=
  {| call_checkout := checkout c1;
     call_subscription_query := "subscription { event { taxBase } }";
     call_app := app_p;
     call_checkout_token := "c1";
     call_app_id := 7;
     call_query_hash := "h:subscription { event { taxBase } }";
     call_promise := Fulfilled (Some amount_10) |}.

(** A second call for the same triple, completing with another payload. *)
Definition amount_12 : Payload := {[ "amount" := JNumber 12 ]}.
Definition rival_call : GenerationCall string :=
  {| call_checkout := checkout c1;
     call_subscription_query := "subscription { event { taxBase } }";
     call_app := app_p;
     call_checkout_token := "c1";
     call_app_id := 7;
     call_query_hash := "h:subscription { event { taxBase } }";
     call_promise := Fulfilled (Some amount_12) |}.


(** No webhook is registered for the event. *)
Definition no_webhooks_env := env [] (always (Fulfilled (Some amount_10))).
Definition no_webhooks_run : Run string :=
  batch_load no_webhooks_env ["c1"; "c2"] (deps [c1; c2] []) fifo.

(** The same request as [two_apps_run], calls completing in issue order. *)
Definition two_apps_deps : Dependencies string ChannelTax unit :=
  deps [c1; c2] [Some app_p; Some app_q; Some app_q].
Definition two_apps_run_fifo : Run string :=
  batch_load two_apps_env ["c1"; "c2"] two_apps_deps fifo.

(** The webhook of app 8 comes first and app 8 has no record: the loader
    answers [None] for it, or leaves it out. *)
Definition orphan_env :=
  env [webhook_q; webhook_p] (always (Fulfilled (Some amount_10))).
Definition orphan_none_run : Run string :=
  batch_load orphan_env ["c1"] (deps [c1] [None; Some app_p]) fifo.
Definition orphan_unmapped_run : Run string :=
  batch_load orphan_env ["c1"] (deps [c1] [Some app_p]) fifo.

(** [c1] with and without a preferred tax app, webhooks of both apps. *)
Definition prefers_p_run : Run string :=
  batch_load two_apps_env ["c1"]
    (deps [c1_prefers_p] [Some app_p; Some app_q; Some app_q]) fifo.
Definition no_preference_run : Run string :=
  batch_load two_apps_env ["c1"]
    (deps [c1] [Some app_p; Some app_q; Some app_q]) fifo.
End Shop.

(* ===================================================================== *)
(** * Theorems *)
(* ===================================================================== *)

Section PayloadByIdLoaderFacts.
Context {K : Type} `{Countable K}.
Context {EventPayload PayloadText : Type}.
Variable get_payload : EventPayload → PayloadText.
Variable in_bulk : list K → gmap K EventPayload.

(** C7. Whatever dict the bulk fetch returns, [PayloadByIdLoader.batch_load]
    returns a list as long as [keys] whose position [i] is the payload of
    the record fetched for key [i], and [None] when the dict has no record
    for that key. *)
Theorem PayloadByIdLoader_batch_load_aligned (keys : list K) :
  length (PayloadByIdLoader_batch_load get_payload in_bulk keys) = length keys
  ∧ ∀ (i : nat) (k : K), keys !! i = Some k →
      PayloadByIdLoader_batch_load get_payload in_bulk keys !! i
      = Some (get_payload <$> (in_bulk keys !! k))
      ∧ (∀ record, in_bulk keys !! k = Some record →
           PayloadByIdLoader_batch_load get_payload in_bulk keys !! i
           = Some (Some (get_payload record)))
      ∧ (in_bulk keys !! k = None →
           PayloadByIdLoader_batch_load get_payload in_bulk keys !! i
           = Some None).
Proof.
  unfold PayloadByIdLoader_batch_load. split.
  - by rewrite length_fmap.
  - intros i k Hk. rewrite list_lookup_fmap, Hk. simpl.
    split; [|split].
    + by destruct (in_bulk keys !! k).
    + by intros record ->.
    + by intros ->.
Qed.
End PayloadByIdLoaderFacts.

Section Grouping.
Context {R : Type}.
Variable fk : R → Z.

Lemma group_lookup (rows : list R) (m : gmap Z (list R)) (k : Z) :
  dict_get_or_empty (foldl (group_step fk) m rows) k
  = dict_get_or_empty m k ++ filter (λ row, fk row = k) rows.
Proof.
  revert m. induction rows as [|row rows IH]; intros m; simpl.
  - by rewrite app_nil_r.
  - rewrite IH. unfold group_step at 1, defaultdict_append, dict_get_or_empty.
    rewrite filter_cons. destruct (decide (fk row = k)) as [->|Hne].
    + rewrite lookup_insert_eq. simpl. by rewrite <- app_assoc.
    + by rewrite lookup_insert_ne.
Qed.

Lemma filter_fk_in_same (table : list R) (keys : list Z) (k : Z) :
  k ∈ keys →
  filter (λ row, fk row = k) (filter_fk_in fk table keys)
  = filter (λ row, fk row = k) table.
Proof.
  intros Hk. unfold filter_fk_in. rewrite list_filter_filter.
  apply list_filter_iff. intros row. split; [tauto|].
  intros Heq. split; [done|]. by rewrite Heq.
Qed.

Lemma grouped_batch (table : list R) (keys : list Z) :
  (λ k, dict_get_or_empty
          (foldl (group_step fk) ∅ (filter_fk_in fk table keys)) k) <$> keys
  = (λ k, filter (λ row, fk row = k) table) <$> keys.
Proof.
  apply list_eq. intros i. rewrite !list_lookup_fmap.
  destruct (keys !! i) as [k|] eqn:Hk; [|done]. simpl. f_equal.
  rewrite group_lookup. unfold dict_get_or_empty at 1.
  rewrite lookup_empty. simpl.
  apply filter_fk_in_same. by eapply list_elem_of_lookup_2.
Qed.
End Grouping.

(** C8. Both grouping loaders return, for each requested key in input order,
    the rows of the single bulk query whose foreign key is that key, in query
    order; a key without rows gets the empty list, and the result is as long
    as [keys]. *)
Theorem grouping_loaders_batch_load
    (events : list WebhookEvent) (webhooks : list Webhook) (keys : list Z) :
  WebhookEventsByWebhookIdLoader_batch_load events keys
    = (λ k, filter (λ e, webhook_id e = k) events) <$> keys
  ∧ WebhooksByAppIdLoader_batch_load webhooks keys
    = (λ k, filter (λ w, app_id w = k) webhooks) <$> keys
  ∧ length (WebhookEventsByWebhookIdLoader_batch_load events keys) = length keys
  ∧ length (WebhooksByAppIdLoader_batch_load webhooks keys) = length keys
  ∧ ∀ (i : nat) (k : Z), keys !! i = Some k →
      WebhookEventsByWebhookIdLoader_batch_load events keys !! i
        = Some (filter (λ e, webhook_id e = k)
                  (filter_fk_in webhook_id events keys))
      ∧ WebhooksByAppIdLoader_batch_load webhooks keys !! i
        = Some (filter (λ w, app_id w = k) (filter_fk_in app_id webhooks keys))
      ∧ ((∀ e, e ∈ events → webhook_id e ≠ k) →
           WebhookEventsByWebhookIdLoader_batch_load events keys !! i = Some [])
      ∧ ((∀ w, w ∈ webhooks → app_id w ≠ k) →
           WebhooksByAppIdLoader_batch_load webhooks keys !! i = Some []).
Proof.
  assert (He : WebhookEventsByWebhookIdLoader_batch_load events keys
               = (λ k, filter (λ e, webhook_id e = k) events) <$> keys)
    by apply (grouped_batch webhook_id).
  assert (Hw : WebhooksByAppIdLoader_batch_load webhooks keys
               = (λ k, filter (λ w, app_id w = k) webhooks) <$> keys)
    by apply (grouped_batch app_id).
  rewrite He, Hw, !length_fmap. do 4 (split; [done|]).
  intros i k Hk. rewrite !list_lookup_fmap, Hk. simpl.
  assert (Hin : k ∈ keys) by (by eapply list_elem_of_lookup_2).
  rewrite !filter_fk_in_same by done.
  do 2 (split; [done|]). clear He Hw Hk Hin.
  split; intros Hnone; f_equal.
  - induction events as [|e es IH]; [done|]. rewrite filter_cons.
    destruct (decide (webhook_id e = k)) as [Heq|_].
    + exfalso. eapply Hnone; [|exact Heq]. by left.
    + apply IH. intros; apply Hnone; by right.
  - induction webhooks as [|w ws IH]; [done|]. rewrite filter_cons.
    destruct (decide (app_id w = k)) as [Heq|_].
    + exfalso. eapply Hnone; [|exact Heq]. by left.
    + apply IH. intros; apply Hnone; by right.
Qed.

(* ===================================================================== *)
(** * The result store *)
(* ===================================================================== *)

Lemma lookup3_setitem (t : string) (a : Z) (h : string) (p : Payload)
    (R : Results) (tr : string * Z * string) :
  lookup3 (results_setitem t a h p R) tr
  = if decide (tr = (t, a, h)) then Some p else lookup3 R tr.
Proof.
  destruct tr as [[t' a'] h']. unfold lookup3, results_setitem. simpl.
  destruct (decide (t' = t)) as [->|Ht].
  - rewrite lookup_insert_eq. simpl.
    destruct (decide (a' = a)) as [->|Ha].
    + rewrite lookup_insert_eq. simpl.
      destruct (decide (h' = h)) as [->|Hh].
      * rewrite lookup_insert_eq. by rewrite decide_True.
      * rewrite lookup_insert_ne by done.
        rewrite decide_False by congruence.
        destruct (R !! t) as [m|]; simpl; [|done].
        by destruct (m !! a).
    + rewrite lookup_insert_ne by done.
      rewrite decide_False by congruence.
      by destruct (R !! t).
  - rewrite lookup_insert_ne by done. by rewrite decide_False by congruence.
Qed.

Lemma setitem_other_token (t : string) (a : Z) (h : string) (p : Payload)
    (R : Results) (t' : string) :
  t' ≠ t → results_setitem t a h p R !! t' = R !! t'.
Proof. intros Hne. unfold results_setitem. by rewrite lookup_insert_ne. Qed.

Lemma setitem_same_token (t : string) (a : Z) (h : string) (p : Payload)
    (R : Results) :
  is_Some (results_setitem t a h p R !! t).
Proof. unfold results_setitem. rewrite lookup_insert_eq. by eexists. Qed.

Section Callbacks.
Context {Token : Type}.
Implicit Types (c : GenerationCall Token) (cs : list (GenerationCall Token)).

Lemma on_settle_stores c (R : Results) :
  call_stores c = true →
  ∃ p, call_promise c = Fulfilled (Some p) ∧ p ≠ ∅
       ∧ on_settle R c
         = results_setitem (call_checkout_token c) (call_app_id c)
             (call_query_hash c) p R.
Proof.
  unfold call_stores, on_settle, store_payload.
  destruct (call_promise c) as [[p|]|e]; try done.
  intros Ht. rewrite Ht. exists p. split; [done|]. split; [|done].
  simpl in Ht. apply negb_true_iff, bool_decide_eq_false in Ht. done.
Qed.

Lemma on_settle_skips c (R : Results) :
  call_stores c = false → on_settle R c = R.
Proof.
  unfold call_stores, on_settle, store_payload.
  destruct (call_promise c) as [[p|]|e]; try done.
  by intros ->.
Qed.

(** What a triple holds once the callbacks of [cs] have run: the payload of
    the last call of [cs] that stores under it, or what it held before. *)
Lemma run_callbacks_lookup3_inv cs (R : Results) tr (p : Payload) :
  lookup3 (run_callbacks cs R) tr = Some p →
  lookup3 R tr = Some p
  ∨ ∃ c, c ∈ cs ∧ call_triple c = tr
         ∧ call_promise c = Fulfilled (Some p) ∧ p ≠ ∅.
Proof.
  revert R. induction cs as [|c cs IH]; intros R; simpl; [by left|].
  intros Hl. apply IH in Hl as [Hl|(c' & Hin & Htr & Hp)].
  - destruct (call_stores c) eqn:Hs.
    + apply (on_settle_stores c R) in Hs as (q & Hq & Hne & Heq).
      rewrite Heq, lookup3_setitem in Hl. case_decide as Hd.
      * right. exists c. split; [by left|]. injection Hl as <-.
        by rewrite Hd.
      * by left.
    + rewrite on_settle_skips in Hl by done. by left.
  - right. exists c'. split; [by right|done].
Qed.

Lemma run_callbacks_untouched cs (R : Results) tr :
  (∀ c, c ∈ cs → call_stores c = true → call_triple c ≠ tr) →
  lookup3 (run_callbacks cs R) tr = lookup3 R tr.
Proof.
  revert R. induction cs as [|c cs IH]; intros R Hno; simpl; [done|].
  rewrite IH by (intros; apply Hno; [by right|done]).
  destruct (call_stores c) eqn:Hs.
  - pose proof (Hno c ltac:(by left) Hs) as Hne.
    apply (on_settle_stores c R) in Hs as (q & Hq & _ & Heq).
    rewrite Heq, lookup3_setitem. by rewrite decide_False.
  - by rewrite on_settle_skips.
Qed.

(** With pairwise distinct triples each storing call finds its payload under
    its own triple, whatever the order of completion. *)
Lemma run_callbacks_own_triple cs (R : Results) c (p : Payload) :
  NoDup (call_triple <$> cs) →
  c ∈ cs →
  call_promise c = Fulfilled (Some p) → p ≠ ∅ →
  lookup3 (run_callbacks cs R) (call_triple c) = Some p.
Proof.
  revert R. induction cs as [|c' cs IH]; intros R Hnd Hin Hp Hne.
  - by apply elem_of_nil in Hin.
  - rewrite fmap_cons in Hnd. apply NoDup_cons in Hnd as [Hnotin Hnd].
    apply elem_of_cons in Hin as [<-|Hin]; simpl.
    + rewrite run_callbacks_untouched.
      * unfold on_settle, store_payload. rewrite Hp. simpl.
        rewrite bool_decide_eq_false_2 by done. simpl.
        rewrite lookup3_setitem. by rewrite decide_True.
      * intros c' Hc' _ Heq. apply Hnotin. rewrite <- Heq.
        by apply list_elem_of_fmap_2.
    + by apply IH.
Qed.

(** A token has an entry exactly when a call for it stored something. *)
Lemma run_callbacks_token_none cs (R : Results) (t : string) :
  R !! t = None →
  (∀ c, c ∈ cs → call_checkout_token c = t → call_stores c = false) →
  run_callbacks cs R !! t = None.
Proof.
  revert R. induction cs as [|c cs IH]; intros R HR Hno; simpl; [done|].
  apply IH; [|intros; apply Hno; [by right|done]].
  destruct (call_stores c) eqn:Hs.
  - destruct (decide (call_checkout_token c = t)) as [Heq|Hne].
    + rewrite Hno in Hs; [done|by left|done].
    + apply (on_settle_stores c R) in Hs as (q & _ & _ & ->).
      by rewrite setitem_other_token.
  - by rewrite on_settle_skips.
Qed.

Lemma run_callbacks_perm_nil (completion : list (GenerationCall Token)
                                           → list (GenerationCall Token)) :
  (∀ l, completion l ≡ₚ l) → completion [] = [].
Proof. intros Hp. by apply Permutation_nil_r. Qed.
End Callbacks.

(* ===================================================================== *)
(** * Promise.all and the apps map *)
(* ===================================================================== *)

Lemma Promise_all_fulfilled {A} (ps : list (Promise A)) :
  (∀ p, p ∈ ps → is_fulfilled p = true) ↔ ∃ l, Promise_all ps = Fulfilled l.
Proof.
  induction ps as [|[a|e] ps IH]; simpl.
  - split; [by eexists|]. intros _ p Hp. by apply elem_of_nil in Hp.
  - split.
    + intros Hall. destruct IH as [IH _].
      destruct IH as [l Hl]; [intros; apply Hall; by right|].
      rewrite Hl. by eexists.
    + intros [l Hl]. destruct (Promise_all ps) eqn:Hps; [|done].
      intros p [->|Hp]%elem_of_cons; [done|].
      destruct IH as [_ IH]. apply IH; [by eexists|done].
  - split.
    + intros Hall. specialize (Hall (Rejected e) ltac:(by left)). done.
    + by intros [l Hl].
Qed.

Lemma Promise_all_rejected {A} (ps : list (Promise A)) :
  (∃ p, p ∈ ps ∧ is_fulfilled p = false) ↔ ∃ e, Promise_all ps = Rejected e.
Proof.
  split.
  - intros (p & Hin & Hp). destruct (Promise_all ps) as [l|e] eqn:Hps.
    + assert (is_fulfilled p = true); [|congruence].
      apply (Promise_all_fulfilled ps); [by eexists|done].
    + by eexists.
  - intros [e He]. induction ps as [|[a|e'] ps IH]; simpl in *; [done| |].
    + destruct (Promise_all ps); [done|].
      destruct IH as (p & Hin & Hp); [done|].
      exists p. split; [by right|done].
    + exists (Rejected e'). split; [by left|done].
Qed.

Lemma build_apps_map_missing (apps : list (option App)) (m : gmap Z App) :
  None ∈ apps → build_apps_map apps m = inl AttributeError.
Proof.
  revert m. induction apps as [|[app|] apps IH]; intros m Hin; simpl.
  - by apply elem_of_nil in Hin.
  - apply IH. by apply elem_of_cons in Hin as [?|?].
  - done.
Qed.

Lemma build_apps_map_present (apps : list (option App)) (m : gmap Z App) :
  None ∉ apps → ∃ apps_map, build_apps_map apps m = inr apps_map.
Proof.
  revert m. induction apps as [|[app|] apps IH]; intros m Hin; simpl.
  - by eexists.
  - apply IH. intros ?. apply Hin. by right.
  - exfalso. apply Hin. by left.
Qed.

(* ===================================================================== *)
(** * The loop of generate_payloads *)
(* ===================================================================== *)

Section OrchestratorFacts.
Context {Token Extra LinesInfo TaxConfiguration CountryTaxConfiguration
         : Type}.
Variable env :
  Collaborators Token Extra LinesInfo TaxConfiguration
                CountryTaxConfiguration.
Implicit Types (c : GenerationCall Token) (st : LoopState Token)
  (ci : CheckoutInfo Token Extra) (li : LinesInfo) (R : Results)
  (keys : list Token) (deps : Dependencies Token Extra LinesInfo)
  (completion : list (GenerationCall Token) → list (GenerationCall Token)).

Lemma defaultdict_getitem_value R (k : string) :
  (defaultdict_getitem R k).1 = default ∅ (R !! k).
Proof. unfold defaultdict_getitem. by destruct (R !! k). Qed.

Lemma defaultdict_getitem_store R (k k' : string) :
  default ∅ ((defaultdict_getitem R k).2 !! k') = default ∅ (R !! k').
Proof.
  unfold defaultdict_getitem. destruct (R !! k) eqn:Hk; simpl; [done|].
  destruct (decide (k = k')) as [<-|Hne].
  - by rewrite lookup_insert_eq, Hk.
  - by rewrite lookup_insert_ne.
Qed.

Lemma defaultdict_getitem_present R (k : string) :
  (defaultdict_getitem R k).2 !! k = Some (default ∅ (R !! k)).
Proof.
  unfold defaultdict_getitem. destruct (R !! k) eqn:Hk; simpl; [done|].
  by rewrite lookup_insert_eq.
Qed.

Lemma defaultdict_getitem_keeps R (k k' : string) (v : NestedMap) :
  R !! k' = Some v → (defaultdict_getitem R k).2 !! k' = Some v.
Proof.
  intros Hv. unfold defaultdict_getitem.
  destruct (R !! k) eqn:Hk; simpl; [done|].
  rewrite lookup_insert_ne; [done|]. intros ->. congruence.
Qed.

(** The list that [return_payloads] builds: one mapping per key, in key
    order, the entry of the key's token or the empty mapping. *)
Lemma return_payloads_values keys R :
  (return_payloads env keys R).1
  = (λ k, default ∅ (R !! str env k)) <$> keys.
Proof.
  revert R. induction keys as [|k keys IH]; intros R; simpl; [done|].
  pose proof (defaultdict_getitem_value R (str env k)) as Hv.
  destruct (defaultdict_getitem R (str env k)) as [v R1] eqn:Hg.
  specialize (IH R1).
  destruct (return_payloads env keys R1) as [vs R2]. simpl in *.
  rewrite Hv, IH. f_equal.
  apply list_fmap_ext. intros _ k' _.
  pose proof (defaultdict_getitem_store R (str env k) (str env k')) as Hs.
  by rewrite Hg in Hs.
Qed.

Lemma return_payloads_keeps keys R (t : string) (v : NestedMap) :
  R !! t = Some v → (return_payloads env keys R).2 !! t = Some v.
Proof.
  revert R. induction keys as [|k keys IH]; intros R Hv; simpl; [done|].
  pose proof (defaultdict_getitem_keeps R (str env k) t v Hv) as Hk.
  destruct (defaultdict_getitem R (str env k)) as [v1 R1].
  specialize (IH R1 Hk).
  by destruct (return_payloads env keys R1) as [vs R2].
Qed.

(** Every requested token owns an entry of [results] afterwards, and that
    entry is the mapping returned for it. *)
Lemma return_payloads_store keys R (k : Token) :
  k ∈ keys →
  (return_payloads env keys R).2 !! str env k
  = Some (default ∅ (R !! str env k)).
Proof.
  revert R. induction keys as [|k' keys IH]; intros R Hin.
  - by apply elem_of_nil in Hin.
  - simpl.
    pose proof (defaultdict_getitem_present R (str env k')) as Hp.
    pose proof (defaultdict_getitem_store R (str env k') (str env k)) as Hs.
    destruct (defaultdict_getitem R (str env k')) as [v1 R1].
    simpl in Hp, Hs.
    destruct (decide (str env k = str env k')) as [Heq|Hne].
    + pose proof (return_payloads_keeps keys R1 _ _ Hp) as Hk.
      destruct (return_payloads env keys R1) as [vs R2]. simpl in *.
      by rewrite Heq.
    + apply elem_of_cons in Hin as [->|Hin]; [done|].
      specialize (IH R1 Hin).
      destruct (return_payloads env keys R1) as [vs R2]. simpl in *.
      rewrite IH. f_equal. done.
Qed.

(** ** The inner loop *)

(** The calls that [for_webhooks] appends are those of the selected
    webhooks, in webhook order, up to the first webhook whose app is not in
    [apps_map]. *)
Lemma for_webhooks_appends (apps_map : gmap Z App) ci
    (tax_app_identifier : option string) (ws : list Webhook)
    (ps : list (GenerationCall Token)) :
  ∃ (new : list (GenerationCall Token)) (done_ws : list Webhook),
    (for_webhooks env apps_map ci tax_app_identifier ws ps).1 = ps ++ new
    ∧ done_ws `prefix_of` ws
    ∧ Forall2 (call_of_webhook env apps_map ci) new
        (filter (λ w, selected_in apps_map tax_app_identifier w = true)
           done_ws)
    ∧ match (for_webhooks env apps_map ci tax_app_identifier ws ps).2 with
      | None => done_ws = ws
      | Some e =>
          ∃ w, e = KeyError (app_id w) ∧ apps_map !! app_id w = None
               ∧ (done_ws ++ [w]) `prefix_of` ws
      end.
Proof.
  revert ps. induction ws as [|w ws IH]; intros ps; simpl.
  - exists [], []. rewrite app_nil_r. repeat split; try done.
  - destruct (apps_map !! app_id w) as [app|] eqn:Happ.
    + assert (Hsel : selected_in apps_map tax_app_identifier w
                     = candidate_selected w app tax_app_identifier)
        by (unfold selected_in; by rewrite Happ).
      destruct (candidate_selected w app tax_app_identifier) eqn:Hc.
      * destruct (subscription_query w) as [query|] eqn:Hq.
        -- match goal with
           | |- context [for_webhooks _ _ _ _ _ (ps ++ [?call])] =>
               destruct (IH (ps ++ [call]))
                 as (new & done_ws & Hnew & Hpre & Hall & Herr);
               exists (call :: new), (w :: done_ws)
           end.
           rewrite Hnew, <- app_assoc. split; [done|].
           split; [by apply prefix_cons|].
           split.
           ++ rewrite filter_cons, decide_True by done.
              constructor; [|done].
              exists (length ps), app, query. done.
           ++ destruct (for_webhooks _ _ _ _ _ _).2 as [e|].
              ** destruct Herr as (w' & ? & ? & ?). exists w'.
                 repeat split; try done. simpl. by apply prefix_cons.
              ** by rewrite Herr.
        -- unfold candidate_selected in Hc. rewrite Hq in Hc. done.
      * destruct (IH ps) as (new & done_ws & Hnew & Hpre & Hall & Herr).
        exists new, (w :: done_ws). split; [done|].
        split; [by apply prefix_cons|].
        split.
        -- rewrite filter_cons, decide_False; [done|]. rewrite Hsel. done.
        -- destruct (for_webhooks _ _ _ _ _ _).2 as [e|].
           ++ destruct Herr as (w' & ? & ? & ?). exists w'.
              repeat split; try done. simpl. by apply prefix_cons.
           ++ by rewrite Herr.
    + exists [], []. simpl. rewrite app_nil_r. split; [done|].
      split; [apply prefix_nil|]. split; [constructor|].
      exists w. repeat split; try done. simpl. apply prefix_cons, prefix_nil.
Qed.

(** ** The outer loop *)

Lemma eligible_unfold (now : Z) ci li :
  eligible env now ci li
  = bool_decide (resolved_tax_strategy env ci li = Some TAX_APP)
    && bool_decide (price_expiration (checkout ci) ≤ now).
Proof.
  unfold eligible, resolved_tax_strategy.
  by destruct (get_tax_configuration_for_checkout env ci li).
Qed.

Lemma eval_checkout_ineligible (apps_map : gmap Z App) ci li st :
  eligible env (timezone_now env (clock_reads st)) ci li = false →
  promises (eval_checkout env apps_map (ci, li) st).1 = promises st
  ∧ (eval_checkout env apps_map (ci, li) st).2 = None.
Proof.
  unfold eligible, eval_checkout.
  destruct (get_tax_configuration_for_checkout env ci li) as [tc ctc].
  destruct (bool_decide (get_tax_calculation_strategy env tc ctc
                         = Some TAX_APP)); simpl; [|done].
  by intros ->.
Qed.

Lemma eval_checkout_eligible (apps_map : gmap Z App) ci li st :
  eligible env (timezone_now env (clock_reads st)) ci li = true →
  eval_checkout env apps_map (ci, li) st
  = ({| clock_reads := S (clock_reads st);
        promises :=
          (for_webhooks env apps_map ci (resolved_tax_app_id env ci li)
             (get_webhooks_for_event env) (promises st)).1 |},
     (for_webhooks env apps_map ci (resolved_tax_app_id env ci li)
        (get_webhooks_for_event env) (promises st)).2).
Proof.
  unfold eligible, eval_checkout, resolved_tax_app_id.
  destruct (get_tax_configuration_for_checkout env ci li) as [tc ctc].
  destruct (bool_decide (get_tax_calculation_strategy env tc ctc
                         = Some TAX_APP)); simpl; [|done].
  intros ->.
  by destruct (for_webhooks env apps_map ci (get_tax_app_id env tc ctc)
                 (get_webhooks_for_event env) (promises st)).
Qed.

Lemma eval_checkout_clock (apps_map : gmap Z App) ci li st :
  (clock_reads st ≤ clock_reads (eval_checkout env apps_map (ci, li) st).1)%nat.
Proof.
  unfold eval_checkout.
  destruct (get_tax_configuration_for_checkout env ci li) as [tc ctc].
  destruct (bool_decide _); simpl; [|done].
  destruct (bool_decide _); simpl; [|lia].
  destruct (for_webhooks _ _ _ _ _ _). simpl. lia.
Qed.

Lemma eval_checkout_calls (apps_map : gmap Z App) ci li st c :
  c ∈ promises (eval_checkout env apps_map (ci, li) st).1 →
  c ∈ promises st ∨ call_origin env apps_map [(ci, li)] (clock_reads st) c.
Proof.
  destruct (eligible env (timezone_now env (clock_reads st)) ci li) eqn:He.
  - rewrite eval_checkout_eligible by done. simpl.
    destruct (for_webhooks_appends apps_map ci (resolved_tax_app_id env ci li)
                (get_webhooks_for_event env) (promises st))
      as (new & done_ws & -> & Hpre & Hall & _).
    intros [Hc|Hc]%elem_of_app; [by left|right].
    apply list_elem_of_lookup in Hc as [i Hi].
    destruct (Forall2_lookup_l _ _ _ _ _ Hall Hi) as (w & Hw & Hcw).
    apply list_elem_of_lookup_2, list_elem_of_filter in Hw as [Hsel Hw].
    exists ci, li, (clock_reads st), w.
    split; [by left|]. split; [done|]. split; [done|].
    split; [|done]. destruct Hpre as [rest ->]. apply elem_of_app. by left.
  - destruct (eval_checkout_ineligible apps_map ci li st He) as [-> _].
    by left.
Qed.

Lemma for_checkouts_cons (apps_map : gmap Z App) ci li
    (pairs : list (CheckoutInfo Token Extra * LinesInfo)) st :
  for_checkouts env apps_map ((ci, li) :: pairs) st
  = match (eval_checkout env apps_map (ci, li) st).2 with
    | None =>
        for_checkouts env apps_map pairs
          (eval_checkout env apps_map (ci, li) st).1
    | Some e => ((eval_checkout env apps_map (ci, li) st).1, Some e)
    end.
Proof.
  cbn [for_checkouts].
  by destruct (eval_checkout env apps_map (ci, li) st) as [st' [e|]].
Qed.

Lemma for_checkouts_calls (apps_map : gmap Z App)
    (pairs : list (CheckoutInfo Token Extra * LinesInfo)) st c :
  c ∈ promises (for_checkouts env apps_map pairs st).1 →
  c ∈ promises st ∨ call_origin env apps_map pairs (clock_reads st) c.
Proof.
  revert st. induction pairs as [|[ci li] pairs IH]; intros st.
  - by left.
  - rewrite for_checkouts_cons.
    pose proof (eval_checkout_calls apps_map ci li st c) as Hstep.
    pose proof (eval_checkout_clock apps_map ci li st) as Hclock.
    destruct (eval_checkout env apps_map (ci, li) st) as [st' [e|]];
      simpl in *.
    + intros Hc. destruct (Hstep Hc) as [?|Ho]; [by left|right].
      destruct Ho as (ci' & li' & n & w & Hin & ? & ? & ? & ? & ?).
      exists ci', li', n, w. repeat split; try done.
      apply list_elem_of_singleton in Hin as ->. by left.
    + intros Hc. destruct (IH st' Hc) as [Hc'|Ho].
      * destruct (Hstep Hc') as [?|Ho]; [by left|right].
        destruct Ho as (ci' & li' & n & w & Hin & ? & ? & ? & ? & ?).
        exists ci', li', n, w. repeat split; try done.
        apply list_elem_of_singleton in Hin as ->. by left.
      * right. destruct Ho as (ci' & li' & n & w & Hin & ? & ? & ? & ? & ?).
        exists ci', li', n, w. repeat split; try done; [by right|lia].
Qed.

(** Without an eligible checkout the loop issues nothing and raises
    nothing. *)
Lemma for_checkouts_none_eligible (apps_map : gmap Z App)
    (pairs : list (CheckoutInfo Token Extra * LinesInfo)) st :
  (∀ ci li (n : nat), (ci, li) ∈ pairs →
     eligible env (timezone_now env n) ci li = false) →
  promises (for_checkouts env apps_map pairs st).1 = promises st
  ∧ (for_checkouts env apps_map pairs st).2 = None.
Proof.
  revert st. induction pairs as [|[ci li] pairs IH]; intros st Hno.
  - done.
  - rewrite for_checkouts_cons.
    destruct (eval_checkout_ineligible apps_map ci li st) as [Hp He].
    { apply Hno. by left. }
    destruct (eval_checkout env apps_map (ci, li) st) as [st' err].
    simpl in *. subst err.
    destruct (IH st') as [Hp' He']; [intros; apply Hno; by right|].
    by rewrite Hp', Hp.
Qed.

(** ** batch_load, case by case *)

Lemma Promise_all3_fulfilled {A B C}
    (a : Promise A) (b : Promise B) (c : Promise C) (x : A * B * C) :
  Promise_all3 a b c = Fulfilled x
  ↔ a = Fulfilled x.1.1 ∧ b = Fulfilled x.1.2 ∧ c = Fulfilled x.2.
Proof.
  destruct x as [[x y] z]. simpl.
  destruct a, b, c; simpl; split; try done; try (intros (? & ? & ?); done).
  - by intros [= -> -> ->].
  - by intros ([= ->] & [= ->] & [= ->]).
Qed.

Lemma Promise_all3_rejected {A B C}
    (a : Promise A) (b : Promise B) (c : Promise C) :
  (∃ e, Promise_all3 a b c = Rejected e)
  ↔ is_fulfilled a = false ∨ is_fulfilled b = false ∨ is_fulfilled c = false.
Proof.
  destruct a, b, c; simpl; split; try (intros [? ?]; done); eauto;
    intros [?|[?|?]]; (done || eauto).
Qed.

Lemma build_apps_map_cases (apps : list (option App)) (m : gmap Z App) :
  (None ∈ apps ∧ build_apps_map apps m = inl AttributeError)
  ∨ ((None ∉ apps) ∧ (∃ apps_map, build_apps_map apps m = inr apps_map)).
Proof.
  destruct (decide (None ∈ apps)) as [Hin|Hnin].
  - left. split; [done|]. by apply build_apps_map_missing.
  - right. split; [done|]. by apply build_apps_map_present.
Qed.

(** The run of [batch_load] when the three dependencies fulfil and every app
    record is there. *)
Lemma batch_load_evaluated keys deps completion
    (cis : list (CheckoutInfo Token Extra)) (lis : list LinesInfo)
    (apps : list (option App)) (apps_map : gmap Z App) :
  dep_checkouts_info deps = Fulfilled cis →
  dep_lines deps = Fulfilled lis →
  dep_apps deps = Fulfilled apps →
  build_apps_map apps ∅ = inr apps_map →
  let loop := for_checkouts env apps_map (zip cis lis)
                {| clock_reads := 0; promises := [] |} in
  let completed := completion (promises loop.1) in
  let r := batch_load env keys deps completion in
  issued r = promises loop.1
  ∧ stored r = run_callbacks completed ∅
  ∧ outcome r
    = match loop.2 with
      | Some e => Rejected e
      | None =>
          match Promise_all (call_promise <$> completed) with
          | Fulfilled _ =>
              Fulfilled ((λ k, default ∅ (stored r !! str env k)) <$> keys)
          | Rejected e => Rejected e
          end
      end
  ∧ (is_fulfilled (outcome r) = true →
     results r = (return_payloads env keys (stored r)).2).
Proof.
  intros Hc Hl Ha Hb. unfold batch_load, generate_payloads.
  rewrite Hc, Hl, Ha. cbn [Promise_all3]. rewrite Hb.
  destruct (for_checkouts env apps_map (zip cis lis)
              {| clock_reads := 0; promises := [] |}) as [st [e|]]; simpl.
  - done.
  - destruct (Promise_all (call_promise <$> completion (promises st)));
      simpl; [|done].
    pose proof (return_payloads_values keys
                  (run_callbacks (completion (promises st)) ∅)) as Hv.
    destruct (return_payloads env keys
                (run_callbacks (completion (promises st)) ∅)) as [vs Rf]
      eqn:Hret.
    simpl in *. rewrite Hv. repeat split. intros _. by rewrite Hret.
Qed.

(** The run of [batch_load] when it never reaches the loop. *)
Lemma batch_load_not_evaluated keys deps completion :
  is_fulfilled (dep_checkouts_info deps) = false
  ∨ is_fulfilled (dep_lines deps) = false
  ∨ is_fulfilled (dep_apps deps) = false
  ∨ (∃ apps, dep_apps deps = Fulfilled apps ∧ None ∈ apps) →
  ∃ e, batch_load env keys deps completion
       = {| outcome := Rejected e; issued := []; stored := ∅; results := ∅ |}.
Proof.
  intros Hcase. unfold batch_load.
  destruct (Promise_all3 (dep_checkouts_info deps) (dep_lines deps)
              (dep_apps deps)) as [[[cis lis] apps]|e] eqn:Hall.
  - apply Promise_all3_fulfilled in Hall as (Hc & Hl & Ha). simpl in *.
    rewrite Hc, Hl, Ha in Hcase. simpl in Hcase.
    destruct Hcase as [?|[?|[?|(apps' & [= <-] & Hin)]]]; try done.
    unfold generate_payloads. rewrite build_apps_map_missing by done.
    by eexists.
  - by eexists.
Qed.

(** Every run is of one of the two kinds. *)
Lemma batch_load_view keys deps completion :
  (∃ e, batch_load env keys deps completion
        = {| outcome := Rejected e; issued := []; stored := ∅;
             results := ∅ |})
  ∨ (∃ cis lis apps apps_map,
       dep_checkouts_info deps = Fulfilled cis
       ∧ dep_lines deps = Fulfilled lis
       ∧ dep_apps deps = Fulfilled apps
       ∧ (None ∉ apps)
       ∧ build_apps_map apps ∅ = inr apps_map).
Proof.
  destruct (dep_checkouts_info deps) as [cis|e1] eqn:Hc;
    [|left; apply batch_load_not_evaluated; rewrite Hc; by left].
  destruct (dep_lines deps) as [lis|e2] eqn:Hl;
    [|left; apply batch_load_not_evaluated; rewrite Hl; by right; left].
  destruct (dep_apps deps) as [apps|e3] eqn:Ha;
    [|left; apply batch_load_not_evaluated; rewrite Ha;
      by right; right; left].
  destruct (build_apps_map_cases apps ∅) as [[Hin _]|[Hnin [apps_map Hb]]].
  - left. apply batch_load_not_evaluated. rewrite Ha. right; right; right.
    by exists apps.
  - right. by exists cis, lis, apps, apps_map.
Qed.

Lemma batch_load_stored keys deps completion :
  (∀ l, completion l ≡ₚ l) →
  stored (batch_load env keys deps completion)
  = run_callbacks (completion (issued (batch_load env keys deps completion)))
      ∅.
Proof.
  intros Hperm.
  destruct (batch_load_view keys deps completion)
    as [[e ->]|(cis & lis & apps & apps_map & Hc & Hl & Ha & _ & Hb)].
  - simpl. by rewrite (run_callbacks_perm_nil completion Hperm).
  - destruct (batch_load_evaluated keys deps completion _ _ _ _ Hc Hl Ha Hb)
      as (-> & -> & _). done.
Qed.

Lemma batch_load_fulfilled_values keys deps completion
    (payloads : list NestedMap) :
  outcome (batch_load env keys deps completion) = Fulfilled payloads →
  payloads
  = (λ k, default ∅ (stored (batch_load env keys deps completion)
                       !! str env k)) <$> keys
  ∧ results (batch_load env keys deps completion)
    = (return_payloads env keys
         (stored (batch_load env keys deps completion))).2.
Proof.
  intros Hout.
  destruct (batch_load_view keys deps completion)
    as [[e Hr]|(cis & lis & apps & apps_map & Hc & Hl & Ha & _ & Hb)].
  - by rewrite Hr in Hout.
  - destruct (batch_load_evaluated keys deps completion _ _ _ _ Hc Hl Ha Hb)
      as (_ & _ & Ho & Hres).
    split; [|apply Hres; by rewrite Hout].
    rewrite Hout in Ho.
    destruct (for_checkouts _ _ _ _).2; [done|].
    destruct (Promise_all _); [|done]. by injection Ho.
Qed.

(** ** The triples of the issued calls *)

Lemma call_of_webhook_facts (apps_map : gmap Z App) ci c (w : Webhook) :
  call_of_webhook env apps_map ci c w →
  call_checkout c = checkout ci
  ∧ call_checkout_token c = checkout_token_of env ci
  ∧ call_app_id c = app_id w
  ∧ webhook_keys env [w] = [call_key c]
  ∧ ∃ app query,
      apps_map !! app_id w = Some app
      ∧ subscription_query w = Some query
      ∧ call_app c = app
      ∧ call_subscription_query c = query
      ∧ call_query_hash c = get_subscription_query_hash env query.
Proof.
  intros (n & app & query & Happ & Hq & ->). simpl.
  repeat split; try done.
  - unfold webhook_keys. simpl. by rewrite Hq.
  - by exists app, query.
Qed.

Lemma webhook_keys_cons (w : Webhook) (ws : list Webhook) :
  webhook_keys env (w :: ws) = webhook_keys env [w] ++ webhook_keys env ws.
Proof. unfold webhook_keys. simpl. by destruct (subscription_query w). Qed.

Lemma webhook_keys_sublist (ws1 ws2 : list Webhook) :
  ws1 `sublist_of` ws2 → webhook_keys env ws1 `sublist_of` webhook_keys env ws2.
Proof.
  induction 1 as [|w ws1 ws2 _ IH|w ws1 ws2 _ IH].
  - done.
  - rewrite (webhook_keys_cons w ws1), (webhook_keys_cons w ws2).
    by apply sublist_app.
  - rewrite (webhook_keys_cons w ws2). by apply sublist_inserts_l.
Qed.

Lemma calls_of_webhooks_keys (apps_map : gmap Z App) ci
    (new : list (GenerationCall Token)) (ws : list Webhook) :
  Forall2 (call_of_webhook env apps_map ci) new ws →
  call_key <$> new = webhook_keys env ws
  ∧ Forall (λ c, call_checkout_token c = checkout_token_of env ci) new.
Proof.
  induction 1 as [|c w new ws Hcw _ [IHk IHt]]; [done|].
  apply call_of_webhook_facts in Hcw as (_ & Ht & _ & Hk & _).
  rewrite webhook_keys_cons, Hk, fmap_cons, IHk. split; [done|].
  by constructor.
Qed.

(** One checkout appends calls that all carry its token and whose
    (app id, query hash) pairs are drawn, in order, from those of the
    webhooks. *)
Lemma eval_checkout_appends (apps_map : gmap Z App) ci li st :
  ∃ new : list (GenerationCall Token),
    promises (eval_checkout env apps_map (ci, li) st).1 = promises st ++ new
    ∧ Forall (λ c, call_checkout_token c = checkout_token_of env ci) new
    ∧ (call_key <$> new)
        `sublist_of` webhook_keys env (get_webhooks_for_event env).
Proof.
  destruct (eligible env (timezone_now env (clock_reads st)) ci li) eqn:He.
  - rewrite eval_checkout_eligible by done. simpl.
    destruct (for_webhooks_appends apps_map ci (resolved_tax_app_id env ci li)
                (get_webhooks_for_event env) (promises st))
      as (new & done_ws & -> & Hpre & Hall & _).
    exists new. split; [done|].
    apply calls_of_webhooks_keys in Hall as [-> Ht]. split; [done|].
    apply webhook_keys_sublist. etrans; [apply sublist_filter|].
    destruct Hpre as [rest ->]. by apply sublist_inserts_r.
  - destruct (eval_checkout_ineligible apps_map ci li st He) as [-> _].
    exists []. rewrite app_nil_r. repeat split; try done.
    apply sublist_nil_l.
Qed.

Lemma same_token_triples (t : string) (new : list (GenerationCall Token)) :
  Forall (λ c, call_checkout_token c = t) new →
  call_triple <$> new = (λ k : Z * string, (t, k.1, k.2)) <$> (call_key <$> new).
Proof.
  intros Ht. rewrite <- list_fmap_compose. apply Forall_fmap_ext_1.
  eapply Forall_impl; [exact Ht|]. intros c <-. done.
Qed.

Lemma for_checkouts_nodup (apps_map : gmap Z App)
    (pairs : list (CheckoutInfo Token Extra * LinesInfo)) st :
  NoDup ((λ item, checkout_token_of env item.1) <$> pairs) →
  NoDup (webhook_keys env (get_webhooks_for_event env)) →
  NoDup (call_triple <$> promises st) →
  (∀ c, c ∈ promises st →
     call_checkout_token c
     ∉ (λ item, checkout_token_of env item.1) <$> pairs) →
  NoDup (call_triple <$> promises (for_checkouts env apps_map pairs st).1).
Proof.
  intros Htok Hkeys. revert st Htok.
  induction pairs as [|[ci li] pairs IH]; intros st Htok Hnd Hfresh; [done|].
  rewrite fmap_cons in Htok. apply NoDup_cons in Htok as [Hci Htok].
  simpl in Hci.
  destruct (eval_checkout_appends apps_map ci li st)
    as (new & Hnew & Ht & Hsub).
  assert (Hnd' : NoDup (call_triple
                          <$> promises (eval_checkout env apps_map
                                          (ci, li) st).1)).
  { rewrite Hnew, fmap_app. apply NoDup_app. split; [done|]. split.
    - intros tr (c & -> & Hc)%list_elem_of_fmap
             (c' & Heq & Hc')%list_elem_of_fmap.
      apply (Hfresh c Hc). rewrite fmap_cons. simpl.
      pose proof (proj1 (Forall_forall _ _) Ht c' Hc') as Hc't.
      simpl in Hc't. rewrite <- Hc't.
      assert (call_checkout_token c = call_checkout_token c') as ->
        by (unfold call_triple in Heq; congruence).
      by left.
    - rewrite (same_token_triples _ _ Ht). apply NoDup_fmap_2.
      + intros [a h] [a' h'] [= -> ->]. done.
      + by eapply sublist_NoDup. }
  rewrite for_checkouts_cons.
  destruct (eval_checkout env apps_map (ci, li) st) as [st' [e|]];
    simpl in *; [done|].
  apply IH; [done|done|].
  intros c Hc. rewrite Hnew in Hc. apply elem_of_app in Hc as [Hc|Hc].
  - intros Hin. apply (Hfresh c Hc). by right.
  - rewrite Forall_forall in Ht. by rewrite (Ht c Hc).
Qed.

Lemma zip_fst_sublist {A B} (l : list A) (k : list B) :
  (zip l k).*1 `sublist_of` l.
Proof.
  revert k. induction l as [|x l IH]; intros [|y k]; simpl.
  - done.
  - done.
  - apply sublist_nil_l.
  - by apply sublist_skip.
Qed.

(** ** When the loop raises *)

Lemma build_apps_map_keeps (apps : list (option App)) (m apps_map : gmap Z App)
    (k : Z) :
  build_apps_map apps m = inr apps_map →
  is_Some (m !! k) → is_Some (apps_map !! k).
Proof.
  revert m. induction apps as [|[app|] apps IH]; intros m; simpl.
  - by intros [= ->].
  - intros Hb Hk. apply (IH _ Hb).
    destruct (decide (App_id app = k)) as [->|Hne].
    + rewrite lookup_insert_eq. by eexists.
    + by rewrite lookup_insert_ne.
  - done.
Qed.

Lemma build_apps_map_covers (apps : list (option App)) (m apps_map : gmap Z App)
    (app : App) :
  build_apps_map apps m = inr apps_map →
  Some app ∈ apps → is_Some (apps_map !! App_id app).
Proof.
  revert m. induction apps as [|[app'|] apps IH]; intros m; simpl.
  - intros _ Hin. by apply elem_of_nil in Hin.
  - intros Hb [[= <-]|Hin]%elem_of_cons.
    + apply (build_apps_map_keeps _ _ _ _ Hb).
      rewrite lookup_insert_eq. by eexists.
    + by apply (IH _ Hb).
  - done.
Qed.

Lemma for_webhooks_no_error (apps_map : gmap Z App) ci
    (tax_app_identifier : option string) (ws : list Webhook)
    (ps : list (GenerationCall Token)) :
  (∀ w, w ∈ ws → is_Some (apps_map !! app_id w)) →
  (for_webhooks env apps_map ci tax_app_identifier ws ps).2 = None.
Proof.
  intros Hall.
  destruct (for_webhooks_appends apps_map ci tax_app_identifier ws ps)
    as (new & done_ws & _ & _ & _ & Herr).
  destruct (for_webhooks _ _ _ _ _ _).2 as [e|]; [|done].
  destruct Herr as (w & _ & Hnone & [rest ->]).
  destruct (Hall w) as [app Happ]; [|congruence].
  rewrite !elem_of_app. left; right. by left.
Qed.

Lemma for_checkouts_no_error (apps_map : gmap Z App)
    (pairs : list (CheckoutInfo Token Extra * LinesInfo)) st :
  (∀ w, w ∈ get_webhooks_for_event env → is_Some (apps_map !! app_id w)) →
  (for_checkouts env apps_map pairs st).2 = None.
Proof.
  intros Hall. revert st.
  induction pairs as [|[ci li] pairs IH]; intros st; [done|].
  rewrite for_checkouts_cons.
  destruct (eligible env (timezone_now env (clock_reads st)) ci li) eqn:He.
  - rewrite eval_checkout_eligible by done. simpl.
    rewrite for_webhooks_no_error by done. apply IH.
  - destruct (eval_checkout_ineligible apps_map ci li st He) as [_ ->].
    apply IH.
Qed.

(* ===================================================================== *)
(** * Properties of batch_load *)
(* ===================================================================== *)

(** C1. When [batch_load] returns, it returns one nested mapping per input
    token, in input order: position [i] holds the entry that [results] has
    for the token of key [i], and the empty mapping when no call for that
    token completed with a payload that was kept.  It does return when the
    dependencies resolve with every app record present and no checkout is
    eligible: then no call is issued and the value is one empty mapping per
    key. *)
Theorem batch_load_aligned keys deps completion :
  (∀ l, completion l ≡ₚ l) →
  (∀ payloads : list NestedMap,
     outcome (batch_load env keys deps completion) = Fulfilled payloads →
     length payloads = length keys
     ∧ ∀ (i : nat) (k : Token), keys !! i = Some k →
         payloads !! i
         = Some (default ∅ (stored (batch_load env keys deps completion)
                              !! str env k))
         ∧ ((∀ c, c ∈ issued (batch_load env keys deps completion) →
               call_checkout_token c = str env k → call_stores c = false) →
            payloads !! i = Some ∅))
  ∧ (∀ cis lis apps,
       dep_checkouts_info deps = Fulfilled cis →
       dep_lines deps = Fulfilled lis →
       dep_apps deps = Fulfilled apps →
       None ∉ apps →
       (∀ ci li (n : nat), (ci, li) ∈ zip cis lis →
          eligible env (timezone_now env n) ci li = false) →
       issued (batch_load env keys deps completion) = []
       ∧ outcome (batch_load env keys deps completion)
         = Fulfilled (replicate (length keys) ∅)).
Proof.
  intros Hperm. split.
  - intros payloads Hout.
    destruct (batch_load_fulfilled_values keys deps completion payloads Hout)
      as [-> _].
    split; [by rewrite length_fmap|].
    intros i k Hk. rewrite list_lookup_fmap, Hk. simpl. split; [done|].
    intros Hnone. do 2 f_equal.
    rewrite (batch_load_stored keys deps completion Hperm).
    rewrite run_callbacks_token_none; [done|done|].
    intros c Hc. apply Hnone. by rewrite <- (Hperm _).
  - intros cis lis apps Hc Hl Ha Hnin Hnone.
    destruct (build_apps_map_present apps ∅ Hnin) as [apps_map Hb].
    destruct (batch_load_evaluated keys deps completion _ _ _ _ Hc Hl Ha Hb)
      as (Hi & Hs & Ho & _).
    destruct (for_checkouts_none_eligible apps_map (zip cis lis)
                {| clock_reads := 0; promises := [] |}) as [Hp He].
    { intros ci li n Hin. by apply Hnone. }
    simpl in Hp. rewrite Hp in Hi, Hs. rewrite He, Hp in Ho.
    rewrite (run_callbacks_perm_nil completion Hperm) in Hs, Ho.
    split; [done|]. rewrite Ho, Hs. simpl. f_equal.
    clear. induction keys as [|k ks IH]; [done|].
    rewrite fmap_cons, IH. by rewrite lookup_empty.
Qed.

(** C2. Calls are issued for a checkout only behind the staleness gate: one
    turn of the loop leaves [promises] as it was, and raises nothing, unless
    the checkout's strategy is the tax-app strategy and its price expiration
    is not later than the clock value read in that turn; so every call that
    [batch_load] issued is for a checkout with the tax-app strategy whose
    price had expired at a clock reading, and a checkout whose price is
    unexpired at every reading gets no call, whatever the webhooks. *)
Theorem staleness_gate keys deps completion :
  (∀ (apps_map : gmap Z App) ci li st,
     ¬ (resolved_tax_strategy env ci li = Some TAX_APP
        ∧ price_expiration (checkout ci)
          ≤ timezone_now env (clock_reads st)) →
     promises (eval_checkout env apps_map (ci, li) st).1 = promises st
     ∧ (eval_checkout env apps_map (ci, li) st).2 = None)
  ∧ (∀ c, c ∈ issued (batch_load env keys deps completion) →
       ∃ cis lis ci li (n : nat),
         dep_checkouts_info deps = Fulfilled cis
         ∧ dep_lines deps = Fulfilled lis
         ∧ (ci, li) ∈ zip cis lis
         ∧ call_checkout c = checkout ci
         ∧ resolved_tax_strategy env ci li = Some TAX_APP
         ∧ price_expiration (checkout ci) ≤ timezone_now env n)
  ∧ (∀ ck : Checkout Token,
       (∀ n : nat, timezone_now env n < price_expiration ck) →
       ∀ c, c ∈ issued (batch_load env keys deps completion) →
            call_checkout c ≠ ck).
Proof.
  assert (Hissued : ∀ c, c ∈ issued (batch_load env keys deps completion) →
       ∃ cis lis ci li (n : nat),
         dep_checkouts_info deps = Fulfilled cis
         ∧ dep_lines deps = Fulfilled lis
         ∧ (ci, li) ∈ zip cis lis
         ∧ call_checkout c = checkout ci
         ∧ resolved_tax_strategy env ci li = Some TAX_APP
         ∧ price_expiration (checkout ci) ≤ timezone_now env n).
  { intros c Hc.
    destruct (batch_load_view keys deps completion)
      as [[e Hr]|(cis & lis & apps & apps_map & Hci & Hl & Ha & _ & Hb)].
    - rewrite Hr in Hc. by apply elem_of_nil in Hc.
    - destruct (batch_load_evaluated keys deps completion _ _ _ _
                  Hci Hl Ha Hb) as (Hi & _).
      rewrite Hi in Hc. apply for_checkouts_calls in Hc as [Hc|Ho].
      + by apply elem_of_nil in Hc.
      + destruct Ho as (ci & li & n & w & Hin & _ & He & _ & _ & Hcw).
        rewrite eligible_unfold in He.
        apply andb_true_iff in He as [Hs Hx].
        apply bool_decide_eq_true in Hs. apply bool_decide_eq_true in Hx.
        apply call_of_webhook_facts in Hcw as (Hck & _).
        by exists cis, lis, ci, li, n. }
  split; [|split; [exact Hissued|]].
  - intros apps_map ci li st Hgate. apply eval_checkout_ineligible.
    rewrite eligible_unfold. apply andb_false_iff.
    destruct (decide (resolved_tax_strategy env ci li = Some TAX_APP))
      as [Hs|Hs].
    + right. apply bool_decide_eq_false. intros Hx. by apply Hgate.
    + left. by apply bool_decide_eq_false.
  - intros ck Hfresh c Hc Heq.
    destruct (Hissued c Hc) as (_ & _ & ci & _ & n & _ & _ & _ & Hck & _ & Hx).
    specialize (Hfresh n). rewrite <- Heq, Hck in Hfresh. lia.
Qed.

(** One turn of the loop for an eligible checkout, with the app of every
    webhook in [apps_map]: it raises nothing and appends exactly one call per
    selected webhook, in webhook order; a webhook of app [app] is selected
    if and only if its subscription query is truthy and either the
    checkout's preferred tax-app identifier is falsy or it is the identifier
    of [app]. *)
Lemma eval_checkout_selection (apps_map : gmap Z App) ci li st :
  eligible env (timezone_now env (clock_reads st)) ci li = true →
  Forall (λ w, is_Some (apps_map !! app_id w)) (get_webhooks_for_event env) →
  (∃ new : list (GenerationCall Token),
     eval_checkout env apps_map (ci, li) st
     = ({| clock_reads := S (clock_reads st);
           promises := promises st ++ new |}, None)
     ∧ Forall2 (call_of_webhook env apps_map ci) new
         (filter (λ w, selected_in apps_map (resolved_tax_app_id env ci li) w
                       = true)
            (get_webhooks_for_event env)))
  ∧ (∀ (w : Webhook) (app : App),
       apps_map !! app_id w = Some app →
       selected_in apps_map (resolved_tax_app_id env ci li) w = true
       ↔ str_truthy (subscription_query w) = true
         ∧ (str_truthy (resolved_tax_app_id env ci li) = false
            ∨ resolved_tax_app_id env ci li = Some (identifier app))).
Proof.
  intros He Hall. split.
  - rewrite eval_checkout_eligible by done.
    destruct (for_webhooks_appends apps_map ci (resolved_tax_app_id env ci li)
                (get_webhooks_for_event env) (promises st))
      as (new & done_ws & Hnew & _ & Hcalls & Herr).
    rewrite for_webhooks_no_error in Herr |- *
      by (intros w Hw; by apply (proj1 (Forall_forall _ _) Hall)).
    subst done_ws. exists new. by rewrite Hnew.
  - intros w app Happ. unfold selected_in, candidate_selected.
    rewrite Happ, andb_true_iff, orb_true_iff, negb_true_iff,
      bool_decide_eq_true.
    split; intros [Hq [Hp|Hp]]; (split; [done|]);
      ((by left) || (by right)).
Qed.

(** C5. [batch_load] joins the three dependency promises before anything
    else: when any of them rejects, the call is rejected, no generation call
    was issued and nothing was stored; a call that returns a value, or that
    issued a generation call, had all three fulfilled; and with all three
    fulfilled the run is that of [generate_payloads] on the three values. *)
Theorem dependency_join keys deps completion :
  (is_fulfilled (dep_checkouts_info deps) = false
   ∨ is_fulfilled (dep_lines deps) = false
   ∨ is_fulfilled (dep_apps deps) = false →
   (∃ e, outcome (batch_load env keys deps completion) = Rejected e)
   ∧ issued (batch_load env keys deps completion) = []
   ∧ stored (batch_load env keys deps completion) = ∅)
  ∧ (is_fulfilled (outcome (batch_load env keys deps completion)) = true
     ∨ issued (batch_load env keys deps completion) ≠ [] →
     is_fulfilled (dep_checkouts_info deps) = true
     ∧ is_fulfilled (dep_lines deps) = true
     ∧ is_fulfilled (dep_apps deps) = true)
  ∧ (∀ cis lis apps,
       dep_checkouts_info deps = Fulfilled cis →
       dep_lines deps = Fulfilled lis →
       dep_apps deps = Fulfilled apps →
       batch_load env keys deps completion
       = generate_payloads env keys completion (cis, lis, apps)).
Proof.
  assert (Hrej : is_fulfilled (dep_checkouts_info deps) = false
                 ∨ is_fulfilled (dep_lines deps) = false
                 ∨ is_fulfilled (dep_apps deps) = false →
                 ∃ e, batch_load env keys deps completion
                      = {| outcome := Rejected e; issued := [];
                           stored := ∅; results := ∅ |}).
  { intros Hcase. apply batch_load_not_evaluated. tauto. }
  split; [|split].
  - intros Hcase. destruct (Hrej Hcase) as [e ->]. simpl. eauto.
  - intros Hran.
    destruct (is_fulfilled (dep_checkouts_info deps)) eqn:H1;
      [|destruct Hrej as [e Hr]; [by left|];
        rewrite Hr in Hran; simpl in Hran; by destruct Hran].
    destruct (is_fulfilled (dep_lines deps)) eqn:H2;
      [|destruct Hrej as [e Hr]; [by right; left|];
        rewrite Hr in Hran; simpl in Hran; by destruct Hran].
    destruct (is_fulfilled (dep_apps deps)) eqn:H3;
      [|destruct Hrej as [e Hr]; [by right; right|];
        rewrite Hr in Hran; simpl in Hran; by destruct Hran].
    done.
  - intros cis lis apps Hc Hl Ha. unfold batch_load.
    by rewrite Hc, Hl, Ha.
Qed.

(** C9. The app map is built before any checkout is looked at: when the app
    loader resolved with a [None] among its results, [batch_load] is
    rejected and has issued no call, whatever the checkouts, their
    eligibility and the webhooks are; with the two other dependencies
    fulfilled the error is that of reading [id] on [None]. *)
Theorem missing_app_record_fails keys deps completion
    (apps : list (option App)) :
  dep_apps deps = Fulfilled apps →
  None ∈ apps →
  (∃ e, outcome (batch_load env keys deps completion) = Rejected e)
  ∧ issued (batch_load env keys deps completion) = []
  ∧ (is_fulfilled (dep_checkouts_info deps) = true →
     is_fulfilled (dep_lines deps) = true →
     outcome (batch_load env keys deps completion) = Rejected AttributeError).
Proof.
  intros Ha Hin.
  destruct (batch_load_not_evaluated keys deps completion) as [e Hr].
  { right; right; right. by exists apps. }
  split; [rewrite Hr; by eexists|]. split; [by rewrite Hr|].
  intros Hc Hl. unfold batch_load. rewrite Ha.
  destruct (dep_checkouts_info deps); [|done].
  destruct (dep_lines deps); [|done]. simpl.
  by rewrite build_apps_map_missing.
Qed.

(** C10. When a token occurs at two positions of the input, the returned
    list holds the same mapping at both: each of them is the one entry that
    [results] has for that token. *)
Theorem equal_tokens_equal_results keys deps completion
    (payloads : list NestedMap) (i j : nat) (k : Token) :
  outcome (batch_load env keys deps completion) = Fulfilled payloads →
  keys !! i = Some k →
  keys !! j = Some k →
  payloads !! i = payloads !! j
  ∧ ∃ m : NestedMap,
      payloads !! i = Some m
      ∧ payloads !! j = Some m
      ∧ results (batch_load env keys deps completion) !! str env k = Some m.
Proof.
  intros Hout Hi Hj.
  destruct (batch_load_fulfilled_values keys deps completion payloads Hout)
    as [-> ->].
  rewrite !list_lookup_fmap, Hi, Hj. simpl. split; [done|].
  eexists. split; [done|]. split; [done|].
  apply return_payloads_store. by eapply list_elem_of_lookup_2.
Qed.

(** Whatever [results] holds under a triple was put there by a call that
    captured this triple and completed with that payload. *)
Lemma batch_load_stored_origin keys deps completion
    (tr : string * Z * string) (p : Payload) :
  (∀ l, completion l ≡ₚ l) →
  lookup3 (stored (batch_load env keys deps completion)) tr = Some p →
  ∃ c, c ∈ issued (batch_load env keys deps completion)
       ∧ call_triple c = tr
       ∧ call_promise c = Fulfilled (Some p) ∧ p ≠ ∅.
Proof.
  intros Hperm. rewrite (batch_load_stored keys deps completion Hperm).
  intros [Hl|(c & Hc & Htr & Hp)]%run_callbacks_lookup3_inv.
  - unfold lookup3 in Hl. by rewrite lookup_empty in Hl.
  - exists c. split; [|done]. by rewrite <- (Hperm _).
Qed.

(** When a triple is absent from the store after the callbacks: it was
    absent before and no call that captured it completed with a payload that
    is kept. *)
Lemma run_callbacks_absent_iff (cs : list (GenerationCall Token)) R
    (tr : string * Z * string) :
  lookup3 (run_callbacks cs R) tr = None
  ↔ lookup3 R tr = None
    ∧ ∀ c, c ∈ cs → call_triple c = tr → call_stores c = false.
Proof.
  revert R. induction cs as [|c cs IH]; intros R.
  - split; [|by intros [? _]]. intros Hl. split; [done|].
    intros c Hc. by apply elem_of_nil in Hc.
  - change (run_callbacks (c :: cs) R) with (run_callbacks cs (on_settle R c)).
    rewrite IH. destruct (call_stores c) eqn:Hs.
    + destruct (on_settle_stores c R Hs) as (p & _ & _ & ->).
      rewrite lookup3_setitem. split.
      * intros [Hl Hrest]. case_decide as Hd; [done|]. split; [done|].
        intros c' [->|Hin]%elem_of_cons Htr; [|by apply Hrest].
        exfalso. apply Hd. by rewrite <- Htr.
      * intros [Hl Hall]. split; [|intros; apply Hall; [by right|done]].
        rewrite decide_False; [done|]. intros Heq.
        specialize (Hall c ltac:(by left) (eq_sym Heq)). congruence.
    + rewrite on_settle_skips by done. split.
      * intros [Hl Hrest]. split; [done|].
        intros c' [->|Hin]%elem_of_cons Htr; [done|by apply Hrest].
      * intros [Hl Hall]. split; [done|].
        intros; apply Hall; [by right|done].
Qed.

(** C4, as the code has it.  A call that completes with [None] or an empty
    payload, like one that rejects, leaves [results] as it is, so every
    payload in [results] comes from a call that fulfilled with it; such empty
    completions do not fail [batch_load], which returns whenever the
    dependencies resolved, every webhook's app record is there and no issued
    call rejects.  A call that rejects does fail it: [batch_load] is then
    rejected.  And a call that fulfils with a non-empty payload does leave
    an entry: a triple is absent from [results], and from the mapping
    returned for its token, exactly when no issued call that captured it
    completed with a non-empty payload. *)
Theorem generation_outcome_handling keys deps completion :
  (∀ l, completion l ≡ₚ l) →
  (∀ (c : GenerationCall Token) (R : Results),
     call_stores c = false → on_settle R c = R)
  ∧ (∀ (tr : string * Z * string) (p : Payload),
       lookup3 (stored (batch_load env keys deps completion)) tr = Some p →
       ∃ c, c ∈ issued (batch_load env keys deps completion)
            ∧ call_triple c = tr
            ∧ call_promise c = Fulfilled (Some p) ∧ p ≠ ∅)
  ∧ (∀ cis lis apps,
       dep_checkouts_info deps = Fulfilled cis →
       dep_lines deps = Fulfilled lis →
       dep_apps deps = Fulfilled apps →
       None ∉ apps →
       (∀ w, w ∈ get_webhooks_for_event env →
          ∃ app, Some app ∈ apps ∧ App_id app = app_id w) →
       (∀ c, c ∈ issued (batch_load env keys deps completion) →
          call_rejected c = false) →
       ∃ payloads : list NestedMap,
         outcome (batch_load env keys deps completion) = Fulfilled payloads)
  ∧ ((∃ c, c ∈ issued (batch_load env keys deps completion)
           ∧ call_rejected c = true) →
     ∃ e, outcome (batch_load env keys deps completion) = Rejected e)
  ∧ (∀ tr : string * Z * string,
       lookup3 (stored (batch_load env keys deps completion)) tr = None
       ↔ ∀ c, c ∈ issued (batch_load env keys deps completion) →
              call_triple c = tr → call_stores c = false)
  ∧ (∀ (payloads : list NestedMap) (i : nat) (k : Token) (m : NestedMap)
       (a : Z) (h : string),
       outcome (batch_load env keys deps completion) = Fulfilled payloads →
       keys !! i = Some k →
       payloads !! i = Some m →
       (m !! a ≫= λ by_hash : gmap string Payload, by_hash !! h) = None
       ↔ ∀ c, c ∈ issued (batch_load env keys deps completion) →
              call_triple c = (str env k, a, h) → call_stores c = false).
Proof.
  intros Hperm.
  assert (Habsent : ∀ tr : string * Z * string,
       lookup3 (stored (batch_load env keys deps completion)) tr = None
       ↔ ∀ c, c ∈ issued (batch_load env keys deps completion) →
              call_triple c = tr → call_stores c = false).
  { intros tr. rewrite (batch_load_stored keys deps completion Hperm).
    rewrite run_callbacks_absent_iff. split.
    - intros [_ Hall] c Hc. apply Hall. by rewrite (Hperm _).
    - intros Hall. split; [unfold lookup3; by rewrite lookup_empty|].
      intros c Hc. apply Hall. by rewrite <- (Hperm _). }
  split; [|split; [|split; [|split; [|split; [exact Habsent|]]]]].
  5:{ intros payloads i k m a h Hout Hk Hm.
      destruct (batch_load_fulfilled_values keys deps completion payloads
                  Hout) as [-> _].
      rewrite list_lookup_fmap, Hk in Hm. simpl in Hm. injection Hm as <-.
      rewrite <- Habsent. unfold lookup3. simpl.
      destruct (stored (batch_load env keys deps completion) !! str env k);
        simpl; [done|]. by rewrite lookup_empty. }
  - intros c R. apply on_settle_skips.
  - intros tr p. by apply batch_load_stored_origin.
  - intros cis lis apps Hc Hl Ha Hnin Hcover Hok.
    destruct (build_apps_map_present apps ∅ Hnin) as [apps_map Hb].
    destruct (batch_load_evaluated keys deps completion _ _ _ _ Hc Hl Ha Hb)
      as (Hi & _ & Ho & _).
    rewrite for_checkouts_no_error in Ho.
    + rewrite Ho.
      destruct (proj1 (Promise_all_fulfilled
                         (call_promise <$> completion
                            (promises (for_checkouts env apps_map
                               (zip cis lis)
                               {| clock_reads := 0; promises := [] |}).1))))
        as [l ->]; [|by eexists].
      intros p (c & -> & Hin)%list_elem_of_fmap.
      rewrite (Hperm _), <- Hi in Hin. specialize (Hok c Hin).
      unfold call_rejected in Hok. by apply negb_false_iff in Hok.
    + intros w Hw. destruct (Hcover w Hw) as (app & Happ & <-).
      by eapply build_apps_map_covers.
  - intros (c & Hc & Hrej).
    destruct (batch_load_view keys deps completion)
      as [[e Hr]|(cis & lis & apps & apps_map & Hci & Hl & Ha & _ & Hb)].
    + rewrite Hr. by eexists.
    + destruct (batch_load_evaluated keys deps completion _ _ _ _
                  Hci Hl Ha Hb) as (Hi & _ & Ho & _).
      rewrite Ho. destruct (for_checkouts _ _ _ _).2 as [e|]; [by eexists|].
      destruct (proj1 (Promise_all_rejected
                         (call_promise <$> completion
                            (promises (for_checkouts env apps_map
                               (zip cis lis)
                               {| clock_reads := 0; promises := [] |}).1))))
        as [e ->]; [|by eexists].
      exists (call_promise c). split.
      * apply list_elem_of_fmap_2. by rewrite (Hperm _), <- Hi.
      * unfold call_rejected in Hrej. by apply negb_true_iff in Hrej.
Qed.

Lemma run_callbacks_last_writer (cs1 cs2 : list (GenerationCall Token)) c
    (p : Payload) R :
  call_promise c = Fulfilled (Some p) →
  p ≠ ∅ →
  (∀ c', c' ∈ cs2 → call_stores c' = true →
         call_triple c' ≠ call_triple c) →
  lookup3 (run_callbacks (cs1 ++ c :: cs2) R) (call_triple c) = Some p.
Proof.
  intros Hp Hne Hlast. unfold run_callbacks.
  rewrite foldl_app. simpl.
  change (foldl on_settle ?R0 cs2) with (run_callbacks cs2 R0).
  rewrite run_callbacks_untouched by done.
  unfold on_settle, store_payload. rewrite Hp. simpl.
  rewrite bool_decide_eq_false_2 by done. simpl.
  rewrite lookup3_setitem. by rewrite decide_True.
Qed.

(** C6, as the code has it.  A call that completes with a non-empty payload
    writes it under exactly the triple it captured and changes no other
    triple.  At the end of the callbacks a triple holds the payload of the
    call that completed last among those that captured it: every entry of
    [results] comes from a call that captured its triple, and every call
    that completed with a non-empty payload leaves its triple occupied, by
    its own payload unless a call of the same triple completed later.  When
    the checkouts given to the loop have pairwise distinct tokens and the
    webhooks that have a query have pairwise distinct (app id, query hash)
    pairs, the issued calls captured pairwise distinct triples, and in
    whatever order the calls complete each payload that is kept is found
    under the triple its call captured. *)
Theorem disjoint_triples keys deps completion :
  (∀ l, completion l ≡ₚ l) →
  (∀ (c : GenerationCall Token) (p : Payload) (R : Results),
     call_promise c = Fulfilled (Some p) → p ≠ ∅ →
     lookup3 (on_settle R c) (call_triple c) = Some p
     ∧ ∀ tr, tr ≠ call_triple c →
             lookup3 (on_settle R c) tr = lookup3 R tr)
  ∧ (∀ (tr : string * Z * string) (p : Payload),
       lookup3 (stored (batch_load env keys deps completion)) tr = Some p →
       ∃ c, c ∈ issued (batch_load env keys deps completion)
            ∧ call_triple c = tr
            ∧ call_promise c = Fulfilled (Some p) ∧ p ≠ ∅)
  ∧ (∀ (l1 l2 : list (GenerationCall Token)) (c : GenerationCall Token)
       (p : Payload),
       completion (issued (batch_load env keys deps completion))
       = l1 ++ c :: l2 →
       call_promise c = Fulfilled (Some p) → p ≠ ∅ →
       (∀ c', c' ∈ l2 → call_stores c' = true →
              call_triple c' ≠ call_triple c) →
       lookup3 (stored (batch_load env keys deps completion)) (call_triple c)
       = Some p)
  ∧ (∀ c : GenerationCall Token,
       c ∈ issued (batch_load env keys deps completion) →
       call_stores c = true →
       is_Some (lookup3 (stored (batch_load env keys deps completion))
                  (call_triple c)))
  ∧ (∀ cis : list (CheckoutInfo Token Extra),
       dep_checkouts_info deps = Fulfilled cis →
       NoDup (checkout_token_of env <$> cis) →
       NoDup (webhook_keys env (get_webhooks_for_event env)) →
       NoDup (call_triple <$> issued (batch_load env keys deps completion))
       ∧ ∀ (c : GenerationCall Token) (p : Payload),
           c ∈ issued (batch_load env keys deps completion) →
           call_promise c = Fulfilled (Some p) → p ≠ ∅ →
           lookup3 (stored (batch_load env keys deps completion))
             (call_triple c) = Some p).
Proof.
  intros Hperm. split; [|split; [|split; [|split]]].
  - intros c p R Hp Hne. unfold on_settle, store_payload. rewrite Hp. simpl.
    rewrite bool_decide_eq_false_2 by done. simpl. split.
    + rewrite lookup3_setitem. by rewrite decide_True.
    + intros tr Htr. rewrite lookup3_setitem. by rewrite decide_False.
  - intros tr p. by apply batch_load_stored_origin.
  - intros l1 l2 c p Hsplit Hp Hne Hlast.
    rewrite (batch_load_stored keys deps completion Hperm), Hsplit.
    by apply run_callbacks_last_writer.
  - intros c Hc Hs.
    destruct (lookup3 (stored (batch_load env keys deps completion))
                (call_triple c)) as [p|] eqn:Hl; [by eexists|].
    rewrite (batch_load_stored keys deps completion Hperm) in Hl.
    apply run_callbacks_absent_iff in Hl as [_ Hall].
    rewrite Hall in Hs; [done| |done]. by rewrite (Hperm _).
  - intros cis Hc Htok Hkeys.
    assert (Hnd : NoDup (call_triple
                           <$> issued (batch_load env keys deps completion))).
    { destruct (batch_load_view keys deps completion)
        as [[e Hr]|(cis' & lis & apps & apps_map & Hci & Hl & Ha & _ & Hb)].
      - rewrite Hr. simpl. constructor.
      - destruct (batch_load_evaluated keys deps completion _ _ _ _
                    Hci Hl Ha Hb) as (-> & _).
        assert (cis' = cis) as -> by congruence.
        apply for_checkouts_nodup; simpl; try done; [|constructor|].
        + replace ((λ item : CheckoutInfo Token Extra * LinesInfo,
                      checkout_token_of env item.1) <$> zip cis lis)
            with (checkout_token_of env <$> (zip cis lis).*1)
            by (by rewrite <- list_fmap_compose).
          eapply sublist_NoDup; [exact Htok|].
          apply fmap_sublist, zip_fst_sublist.
        + intros c Hin. by apply elem_of_nil in Hin. }
    split; [done|].
    intros c p Hin Hp Hne.
    rewrite (batch_load_stored keys deps completion Hperm).
    apply run_callbacks_own_triple; try done.
    + by rewrite (Hperm _).
    + by rewrite (Hperm _).
Qed.

End OrchestratorFacts.

(* ===================================================================== *)
(** * The properties on the concrete shop *)
(* ===================================================================== *)

Lemma fifo_permutes (l : list (GenerationCall string)) : Shop.fifo l ≡ₚ l.
Proof. done. Qed.

Lemma lifo_permutes (l : list (GenerationCall string)) : Shop.lifo l ≡ₚ l.
Proof. apply reverse_Permutation. Qed.

(** The example of the specification evaluates to [[{7: {h: payload}}, {}]]. *)
Example example_run_outcome :
  outcome Shop.example_run = Fulfilled Shop.example_payloads.
Proof. vm_compute. reflexivity. Qed.

(** With preference [tax.p] and webhooks of the apps [tax.p] and [tax.q],
    only the webhook of [tax.p] gets a call; without a preference both do
    (the webhook without a query never does). *)
Example preference_tie_break :
  call_app_id
    <$> promises (eval_checkout Shop.two_apps_env Shop.two_apps_map
                    (Shop.c1_prefers_p, tt) Shop.start).1 = [7]
  ∧ call_app_id
      <$> promises (eval_checkout Shop.two_apps_env Shop.two_apps_map
                      (Shop.c1, tt) Shop.start).1 = [7; 8].
Proof. split; vm_compute; reflexivity. Qed.

Lemma batch_load_aligned_witness :
  outcome Shop.example_run = Fulfilled Shop.example_payloads
  ∧ length Shop.example_payloads = length ["c1"; "c2"]
  ∧ ∀ (i : nat) (k : string), ["c1"; "c2"] !! i = Some k →
      Shop.example_payloads !! i
      = Some (default ∅ (stored Shop.example_run !! k))
      ∧ ((∀ c, c ∈ issued Shop.example_run →
            call_checkout_token c = k → call_stores c = false) →
         Shop.example_payloads !! i = Some ∅).
Proof.
  assert (Hout : outcome Shop.example_run = Fulfilled Shop.example_payloads)
    by (vm_compute; reflexivity).
  split; [exact Hout|].
  exact (proj1 (batch_load_aligned Shop.example_env ["c1"; "c2"]
                  (Shop.deps [Shop.c1; Shop.c2] [Some Shop.app_p]) Shop.fifo
                  fifo_permutes)
           Shop.example_payloads Hout).
Defined.

Lemma staleness_gate_witness :
  (∀ n : nat,
     timezone_now Shop.two_apps_env n
     < price_expiration (checkout Shop.c2))
  ∧ ∀ c, c ∈ issued Shop.two_apps_run → call_checkout c ≠ checkout Shop.c2.
Proof.
  assert (Hfresh : ∀ n : nat,
            timezone_now Shop.two_apps_env n
            < price_expiration (checkout Shop.c2))
    by (intros n; vm_compute; reflexivity).
  split; [exact Hfresh|].
  exact (proj2 (proj2 (staleness_gate Shop.two_apps_env ["c1"; "c2"]
                         (Shop.deps [Shop.c1; Shop.c2]
                            [Some Shop.app_p; Some Shop.app_q;
                             Some Shop.app_q])
                         Shop.lifo))
           (checkout Shop.c2) Hfresh).
Defined.

Lemma generation_outcome_handling_witness :
  (∀ c, c ∈ issued Shop.declined_run → call_rejected c = false)
  ∧ ∃ payloads : list NestedMap,
      outcome Shop.declined_run = Fulfilled payloads.
Proof.
  assert (Hok : ∀ c, c ∈ issued Shop.declined_run → call_rejected c = false).
  { apply Forall_forall. vm_compute.
    repeat (apply Forall_cons; split; [reflexivity|]). apply Forall_nil.
    exact I. }
  split; [exact Hok|].
  refine (proj1 (proj2 (proj2
            (generation_outcome_handling
               (Shop.env [Shop.webhook_p] (Shop.always (Fulfilled None)))
               ["c1"; "c2"]
               (Shop.deps [Shop.c1; Shop.c2] [Some Shop.app_p]) Shop.fifo
               fifo_permutes)))
            [Shop.c1; Shop.c2] [tt; tt] [Some Shop.app_p]
            eq_refl eq_refl eq_refl _ _ Hok).
  - intros [Hhd|Htl]%elem_of_cons; [discriminate|].
    by apply elem_of_nil in Htl.
  - intros w Hw. apply list_elem_of_singleton in Hw as ->.
    exists Shop.app_p. split; [by left|reflexivity].
Defined.

(** C4 fails on the code when a generation promise rejects: the call for
    [c1] fails, and with it the whole [batch_load]. *)
Lemma generation_failure_fails_batch :
  (∃ c, c ∈ issued Shop.failing_run ∧ call_rejected c = true)
  ∧ outcome Shop.failing_run = Rejected (GenerationError "timeout")
  ∧ ¬ ∃ payloads : list NestedMap,
        outcome Shop.failing_run = Fulfilled payloads.
Proof.
  split; [|split].
  - eexists. split; [vm_compute; left|reflexivity].
  - vm_compute. reflexivity.
  - intros [payloads Hout]. vm_compute in Hout. discriminate.
Qed.

Lemma dependency_join_witness :
  is_fulfilled (dep_lines Shop.lines_failed) = false
  ∧ (∃ e, outcome Shop.lines_failed_run = Rejected e)
  ∧ issued Shop.lines_failed_run = []
  ∧ stored Shop.lines_failed_run = ∅.
Proof.
  split; [reflexivity|].
  apply (proj1 (dependency_join Shop.example_env ["c1"; "c2"]
                  Shop.lines_failed Shop.fifo)).
  right; left. reflexivity.
Defined.

(** C6 fails on the code when two webhooks of one app carry the same query:
    the two calls issued for [c1] captured the same triple. *)
Lemma twin_webhooks_share_triple :
  (∃ ca cb : GenerationCall string,
     issued Shop.twin_webhooks_run = [ca; cb]
     ∧ call_triple ca = call_triple cb)
  ∧ ¬ NoDup (call_triple <$> issued Shop.twin_webhooks_run).
Proof.
  split.
  - do 2 eexists. split; vm_compute; reflexivity.
  - intros Hnd. vm_compute in Hnd. apply NoDup_cons in Hnd as [Hnotin _].
    apply Hnotin. by left.
Qed.

Lemma disjoint_triples_witness :
  NoDup (checkout_token_of Shop.two_apps_env <$> [Shop.c1; Shop.c2])
  ∧ NoDup (webhook_keys Shop.two_apps_env
             (get_webhooks_for_event Shop.two_apps_env))
  ∧ NoDup (call_triple <$> issued Shop.two_apps_run)
  ∧ ∀ (c : GenerationCall string) (p : Payload),
      c ∈ issued Shop.two_apps_run →
      call_promise c = Fulfilled (Some p) → p ≠ ∅ →
      lookup3 (stored Shop.two_apps_run) (call_triple c) = Some p.
Proof.
  assert (Htok : NoDup (checkout_token_of Shop.two_apps_env
                          <$> [Shop.c1; Shop.c2]))
    by (apply (bool_decide_unpack _); vm_compute; exact I).
  assert (Hkeys : NoDup (webhook_keys Shop.two_apps_env
                           (get_webhooks_for_event Shop.two_apps_env)))
    by (apply (bool_decide_unpack _); vm_compute; exact I).
  split; [exact Htok|]. split; [exact Hkeys|].
  exact (proj2 (proj2 (proj2 (proj2
           (disjoint_triples Shop.two_apps_env ["c1"; "c2"]
              (Shop.deps [Shop.c1; Shop.c2]
                 [Some Shop.app_p; Some Shop.app_q; Some Shop.app_q])
              Shop.lifo lifo_permutes))))
           [Shop.c1; Shop.c2] eq_refl Htok Hkeys).
Defined.

Lemma PayloadByIdLoader_batch_load_aligned_witness :
  [3; 2; 1] !! 1%nat = Some 2
  ∧ Shop.payload_in_bulk [3; 2; 1] !! 2 = None
  ∧ PayloadByIdLoader_batch_load (λ text : string, text)
      Shop.payload_in_bulk [3; 2; 1] !! 1%nat = Some None.
Proof.
  assert (Hnone : Shop.payload_in_bulk [3; 2; 1] !! 2 = None)
    by (vm_compute; reflexivity).
  split; [reflexivity|]. split; [exact Hnone|].
  exact (proj2 (proj2 (proj2 (PayloadByIdLoader_batch_load_aligned
                                (λ text : string, text)
                                Shop.payload_in_bulk [3; 2; 1])
                         1%nat 2 eq_refl))
           Hnone).
Defined.

Lemma grouping_loaders_batch_load_witness :
  [20; 30; 10] !! 1%nat = Some 30
  ∧ (∀ e, e ∈ Shop.event_rows → webhook_id e ≠ 30)
  ∧ WebhookEventsByWebhookIdLoader_batch_load Shop.event_rows [20; 30; 10]
    !! 1%nat = Some [].
Proof.
  assert (Hnone : ∀ e, e ∈ Shop.event_rows → webhook_id e ≠ 30).
  { apply Forall_forall.
    repeat (apply Forall_cons; split; [vm_compute; discriminate|]).
    apply Forall_nil. exact I. }
  split; [reflexivity|]. split; [exact Hnone|].
  exact (proj1 (proj2 (proj2
           (proj2 (proj2 (proj2 (proj2
              (grouping_loaders_batch_load Shop.event_rows
                 Shop.webhook_rows [20; 30; 10]))))
              1%nat 30 eq_refl)))
           Hnone).
Defined.

Lemma missing_app_record_fails_witness :
  None ∈ [@None App]
  ∧ (∃ e, outcome Shop.app_gone_run = Rejected e)
  ∧ issued Shop.app_gone_run = []
  ∧ (is_fulfilled (dep_checkouts_info
                     (Shop.deps [Shop.c2; Shop.c3_flat] [None])) = true →
     is_fulfilled (dep_lines (Shop.deps [Shop.c2; Shop.c3_flat] [None]))
     = true →
     outcome Shop.app_gone_run = Rejected AttributeError).
Proof.
  assert (Hin : None ∈ [@None App]) by (by left).
  split; [exact Hin|].
  exact (missing_app_record_fails Shop.example_env ["c2"; "c3"]
           (Shop.deps [Shop.c2; Shop.c3_flat] [None]) Shop.fifo
           [None] eq_refl Hin).
Defined.

Lemma equal_tokens_equal_results_witness :
  outcome Shop.repeated_token_run = Fulfilled Shop.repeated_token_payloads
  ∧ Shop.repeated_token_payloads !! 0%nat
    = Shop.repeated_token_payloads !! 2%nat
  ∧ ∃ m : NestedMap,
      Shop.repeated_token_payloads !! 0%nat = Some m
      ∧ Shop.repeated_token_payloads !! 2%nat = Some m
      ∧ results Shop.repeated_token_run !! "c1" = Some m.
Proof.
  assert (Hout : outcome Shop.repeated_token_run
                 = Fulfilled Shop.repeated_token_payloads)
    by (vm_compute; reflexivity).
  split; [exact Hout|].
  exact (equal_tokens_equal_results Shop.example_env ["c1"; "c2"; "c1"]
           (Shop.deps [Shop.c1; Shop.c2; Shop.c1] [Some Shop.app_p])
           Shop.fifo Shop.repeated_token_payloads 0%nat 2%nat "c1"
           Hout eq_refl eq_refl).
Defined.

(* ===================================================================== *)
(** * Further properties of the keyed loaders *)
(* ===================================================================== *)

Section GroupingMore.
Context {R : Type}.
Variable fk : R → Z.

Lemma filter_disjoint_union (P Q : R → Prop)
    `{∀ x, Decision (P x)} `{∀ x, Decision (Q x)} (l : list R) :
  (∀ x, P x → Q x → False) →
  filter (λ x, P x ∨ Q x) l ≡ₚ filter P l ++ filter Q l.
Proof.
  intros Hdisj. induction l as [|x l IH]; [done|].
  rewrite !filter_cons.
  destruct (decide (P x)) as [HP|HP], (decide (Q x)) as [HQ|HQ].
  - by destruct (Hdisj x).
  - rewrite decide_True by (by left). simpl. by rewrite IH.
  - rewrite decide_True by (by right). rewrite IH.
    by rewrite Permutation_middle.
  - rewrite decide_False by tauto. done.
Qed.

Lemma groups_partition (table : list R) (keys : list Z) :
  NoDup keys →
  concat ((λ k, filter (λ row, fk row = k) table) <$> keys)
  ≡ₚ filter_fk_in fk table keys.
Proof.
  unfold filter_fk_in. induction 1 as [|k ks Hk _ IH]; simpl.
  - induction table as [|row table IHt]; [done|].
    rewrite filter_cons, decide_False; [done|]. apply not_elem_of_nil.
  - rewrite IH.
    rewrite <- (filter_disjoint_union (λ row, fk row = k)
                  (λ row, fk row ∈ ks)).
    + replace (filter (λ row, fk row = k ∨ fk row ∈ ks) table)
        with (filter (λ row, fk row ∈ k :: ks) table); [done|].
      apply list_filter_iff. intros row. by rewrite elem_of_cons.
    + intros row <- Hin. done.
Qed.
End GroupingMore.

(** X1. With pairwise distinct keys the groups returned by the two grouping
    loaders split the rows of the bulk query: put together they are these
    rows, each exactly once. *)
Theorem grouping_loaders_partition
    (events : list WebhookEvent) (webhooks : list Webhook) (keys : list Z) :
  NoDup keys →
  concat (WebhookEventsByWebhookIdLoader_batch_load events keys)
    ≡ₚ filter_fk_in webhook_id events keys
  ∧ concat (WebhooksByAppIdLoader_batch_load webhooks keys)
    ≡ₚ filter_fk_in app_id webhooks keys.
Proof.
  intros Hnd. unfold WebhookEventsByWebhookIdLoader_batch_load,
    WebhooksByAppIdLoader_batch_load.
  rewrite (grouped_batch webhook_id), (grouped_batch app_id).
  split; by apply groups_partition.
Qed.

(** X2. What a grouping loader returns for a key does not depend on the
    other keys of the batch: the result for two key lists in a row is the
    two results in a row, and the entry of a key is what a batch of that
    key alone returns. *)
Theorem grouping_loaders_batching
    (events : list WebhookEvent) (webhooks : list Webhook)
    (keys1 keys2 : list Z) :
  WebhookEventsByWebhookIdLoader_batch_load events (keys1 ++ keys2)
    = WebhookEventsByWebhookIdLoader_batch_load events keys1
      ++ WebhookEventsByWebhookIdLoader_batch_load events keys2
  ∧ WebhooksByAppIdLoader_batch_load webhooks (keys1 ++ keys2)
    = WebhooksByAppIdLoader_batch_load webhooks keys1
      ++ WebhooksByAppIdLoader_batch_load webhooks keys2
  ∧ ∀ (i : nat) (k : Z), keys1 !! i = Some k →
      WebhookEventsByWebhookIdLoader_batch_load events keys1 !! i
        = WebhookEventsByWebhookIdLoader_batch_load events [k] !! 0%nat
      ∧ WebhooksByAppIdLoader_batch_load webhooks keys1 !! i
        = WebhooksByAppIdLoader_batch_load webhooks [k] !! 0%nat.
Proof.
  unfold WebhookEventsByWebhookIdLoader_batch_load,
    WebhooksByAppIdLoader_batch_load.
  rewrite !(grouped_batch webhook_id), !(grouped_batch app_id).
  rewrite !fmap_app. do 2 (split; [done|]).
  intros i k Hk.
  rewrite ?(grouped_batch webhook_id), ?(grouped_batch app_id).
  rewrite !list_lookup_fmap, Hk. done.
Qed.

Section PayloadByIdLoaderMore.
Context {K : Type} `{Countable K}.
Context {EventPayload PayloadText : Type}.
Variable get_payload : EventPayload → PayloadText.
Variable in_bulk : list K → gmap K EventPayload.
Variable table : gmap K EventPayload.

(** X3. When the bulk fetch returns, for every requested id, the record the
    table has for it, [PayloadByIdLoader.batch_load] gives each key the
    payload of its record in the table whatever else is in the batch: the
    result for two key lists in a row is the two results in a row, and a key
    that occurs twice gets the same entry twice. *)
Theorem PayloadByIdLoader_batching (keys1 keys2 : list K) :
  (∀ (keys : list K) (k : K), k ∈ keys → in_bulk keys !! k = table !! k) →
  PayloadByIdLoader_batch_load get_payload in_bulk keys1
    = (λ k, get_payload <$> table !! k) <$> keys1
  ∧ PayloadByIdLoader_batch_load get_payload in_bulk (keys1 ++ keys2)
    = PayloadByIdLoader_batch_load get_payload in_bulk keys1
      ++ PayloadByIdLoader_batch_load get_payload in_bulk keys2
  ∧ ∀ (i j : nat) (k : K), keys1 !! i = Some k → keys1 !! j = Some k →
      PayloadByIdLoader_batch_load get_payload in_bulk keys1 !! i
      = PayloadByIdLoader_batch_load get_payload in_bulk keys1 !! j.
Proof.
  intros Hbulk.
  assert (Hval : ∀ keys,
            PayloadByIdLoader_batch_load get_payload in_bulk keys
            = (λ k, get_payload <$> table !! k) <$> keys).
  { intros keys. unfold PayloadByIdLoader_batch_load.
    apply list_eq. intros i. rewrite !list_lookup_fmap.
    destruct (keys !! i) as [k|] eqn:Hk; [|done]. simpl.
    rewrite Hbulk by (by eapply list_elem_of_lookup_2).
    by destruct (table !! k). }
  split; [apply Hval|]. split.
  - by rewrite !Hval, fmap_app.
  - intros i j k Hi Hj. by rewrite Hval, !list_lookup_fmap, Hi, Hj.
Qed.
End PayloadByIdLoaderMore.

(* ===================================================================== *)
(** * Further properties of the result store *)
(* ===================================================================== *)

(** X4. Writing a non-empty payload with [store_payload] and reading the
    triple back gives that payload, every other triple reads as before, and
    the token of the write has an entry afterwards; a [None] or empty
    payload leaves [results] as it is. *)
Theorem store_payload_read_back
    (t : string) (a : Z) (h : string) (p : Payload) (R : Results) :
  (p ≠ ∅ →
   lookup3 (store_payload (Some p) t a h R) (t, a, h) = Some p
   ∧ (∀ tr, tr ≠ (t, a, h) →
        lookup3 (store_payload (Some p) t a h R) tr = lookup3 R tr)
   ∧ is_Some (store_payload (Some p) t a h R !! t))
  ∧ store_payload None t a h R = R
  ∧ store_payload (Some ∅) t a h R = R.
Proof.
  split; [|split; [done|]].
  - intros Hne. unfold store_payload, payload_truthy.
    rewrite bool_decide_eq_false_2 by done. simpl. split; [|split].
    + rewrite lookup3_setitem. by rewrite decide_True.
    + intros tr Htr. rewrite lookup3_setitem. by rewrite decide_False.
    + apply setitem_same_token.
  - unfold store_payload, payload_truthy.
    by rewrite bool_decide_eq_true_2.
Qed.

Lemma results_setitem_commute
    (t1 : string) (a1 : Z) (h1 : string) (p1 : Payload)
    (t2 : string) (a2 : Z) (h2 : string) (p2 : Payload) (R : Results) :
  (t1, a1, h1) ≠ (t2, a2, h2) →
  results_setitem t1 a1 h1 p1 (results_setitem t2 a2 h2 p2 R)
  = results_setitem t2 a2 h2 p2 (results_setitem t1 a1 h1 p1 R).
Proof.
  intros Hne. unfold results_setitem.
  destruct (decide (t1 = t2)) as [<-|Ht].
  - rewrite !lookup_insert_eq, !insert_insert_eq. simpl. f_equal.
    destruct (decide (a1 = a2)) as [<-|Ha].
    + rewrite !lookup_insert_eq, !insert_insert_eq. simpl. f_equal.
      apply insert_insert_ne. congruence.
    + rewrite !lookup_insert_ne by done.
      by apply insert_insert_ne.
  - rewrite !lookup_insert_ne by done.
    by apply insert_insert_ne.
Qed.

Section CallbacksMore.
Context {Token : Type}.
Implicit Types (c : GenerationCall Token) (cs : list (GenerationCall Token)).

Lemma on_settle_commute c1 c2 (R : Results) :
  call_triple c1 ≠ call_triple c2 →
  on_settle (on_settle R c1) c2 = on_settle (on_settle R c2) c1.
Proof.
  intros Hne.
  destruct (call_stores c1) eqn:H1; [|by rewrite !(on_settle_skips c1)].
  destruct (call_stores c2) eqn:H2; [|by rewrite !(on_settle_skips c2)].
  destruct (on_settle_stores c1 R H1) as (p1 & Hp1 & _ & E1).
  destruct (on_settle_stores c2 R H2) as (p2 & Hp2 & _ & E2).
  destruct (on_settle_stores c1 (on_settle R c2) H1)
    as (p1' & Hp1' & _ & E1').
  destruct (on_settle_stores c2 (on_settle R c1) H2)
    as (p2' & Hp2' & _ & E2').
  assert (p1' = p1) as -> by congruence.
  assert (p2' = p2) as -> by congruence.
  rewrite E2', E1', E1, E2. symmetry. by apply results_setitem_commute.
Qed.

(** The store after the callbacks does not depend on the order of
    completion when the calls captured pairwise distinct triples. *)
Lemma run_callbacks_permutation cs1 cs2 (R : Results) :
  cs1 ≡ₚ cs2 →
  NoDup (call_triple <$> cs1) →
  run_callbacks cs1 R = run_callbacks cs2 R.
Proof.
  intros Hperm. revert R.
  induction Hperm as [|c cs1 cs2 _ IH|c1 c2 cs|cs1 cs2 cs3 H12 IH12 _ IH23];
    intros R Hnd.
  - done.
  - simpl. apply IH. rewrite fmap_cons in Hnd.
    by apply NoDup_cons in Hnd as [_ ?].
  - simpl. f_equal. apply on_settle_commute.
    rewrite !fmap_cons in Hnd. apply NoDup_cons in Hnd as [Hnotin _].
    intros Heq. apply Hnotin. rewrite Heq. by left.
  - rewrite IH12 by done. apply IH23. by rewrite <- H12.
Qed.

(** X5. When two calls captured the same triple the one that completes
    last wins: after the callbacks, a triple holds the payload of the last
    completed call that stored under it. *)
Theorem last_completed_call_wins cs1 cs2 c (p : Payload) (R : Results) :
  call_promise c = Fulfilled (Some p) →
  p ≠ ∅ →
  (∀ c', c' ∈ cs2 → call_stores c' = true →
         call_triple c' ≠ call_triple c) →
  lookup3 (run_callbacks (cs1 ++ c :: cs2) R) (call_triple c) = Some p.
Proof.
  intros Hp Hne Hlast. unfold run_callbacks.
  rewrite foldl_app. simpl.
  change (foldl on_settle ?R0 cs2) with (run_callbacks cs2 R0).
  rewrite run_callbacks_untouched by done.
  unfold on_settle, store_payload. rewrite Hp. simpl.
  rewrite bool_decide_eq_false_2 by done. simpl.
  rewrite lookup3_setitem. by rewrite decide_True.
Qed.
End CallbacksMore.

(* ===================================================================== *)
(** * Further properties of batch_load *)
(* ===================================================================== *)

Section OrchestratorMore.
Context {Token Extra LinesInfo TaxConfiguration CountryTaxConfiguration
         : Type}.
Variable env :
  Collaborators Token Extra LinesInfo TaxConfiguration
                CountryTaxConfiguration.
Implicit Types (c : GenerationCall Token) (st : LoopState Token)
  (ci : CheckoutInfo Token Extra) (li : LinesInfo) (R : Results)
  (keys : list Token) (deps : Dependencies Token Extra LinesInfo)
  (completion : list (GenerationCall Token) → list (GenerationCall Token)).

(** X6. With pairwise distinct triples among the issued calls the order in
    which the calls complete does not matter: two completion orders give the
    same calls, the same [results], the same verdict and, when the call
    returns, the same list of mappings. *)
Theorem completion_order_irrelevant keys deps completion1 completion2 :
  (∀ l, completion1 l ≡ₚ l) →
  (∀ l, completion2 l ≡ₚ l) →
  NoDup (call_triple <$> issued (batch_load env keys deps completion1)) →
  issued (batch_load env keys deps completion1)
    = issued (batch_load env keys deps completion2)
  ∧ stored (batch_load env keys deps completion1)
    = stored (batch_load env keys deps completion2)
  ∧ is_fulfilled (outcome (batch_load env keys deps completion1))
    = is_fulfilled (outcome (batch_load env keys deps completion2))
  ∧ ∀ payloads : list NestedMap,
      outcome (batch_load env keys deps completion1) = Fulfilled payloads →
      outcome (batch_load env keys deps completion2) = Fulfilled payloads
      ∧ results (batch_load env keys deps completion1)
        = results (batch_load env keys deps completion2).
Proof.
  intros Hp1 Hp2. unfold batch_load, generate_payloads.
  destruct (Promise_all3 (dep_checkouts_info deps) (dep_lines deps)
              (dep_apps deps)) as [[[cis lis] apps]|e]; [|done].
  destruct (build_apps_map apps ∅) as [e|apps_map]; [done|].
  destruct (for_checkouts env apps_map (zip cis lis)
              {| clock_reads := 0; promises := [] |}) as [st err].
  intros Hnd.
  assert (Hissued : NoDup (call_triple <$> promises st)).
  { destruct err as [e|]; [exact Hnd|].
    destruct (Promise_all (call_promise <$> completion1 (promises st)));
      [|exact Hnd].
    by destruct (return_payloads env keys
                   (run_callbacks (completion1 (promises st)) ∅)). }
  clear Hnd.
  assert (Hstored : run_callbacks (completion1 (promises st)) ∅
                    = run_callbacks (completion2 (promises st)) ∅).
  { apply run_callbacks_permutation.
    - by rewrite (Hp1 _), (Hp2 _).
    - by rewrite (Hp1 _). }
  assert (Hall : is_fulfilled
                   (Promise_all (call_promise <$> completion1 (promises st)))
                 = is_fulfilled
                     (Promise_all
                        (call_promise <$> completion2 (promises st)))).
  { destruct (Promise_all (call_promise <$> completion1 (promises st)))
      as [l1|e1] eqn:H1;
      destruct (Promise_all (call_promise <$> completion2 (promises st)))
        as [l2|e2] eqn:H2; try done.
    - assert (Hex : ∃ e, Promise_all
                           (call_promise <$> completion2 (promises st))
                         = Rejected e) by (by eexists).
      apply Promise_all_rejected in Hex as (p & Hin & Hrej).
      rewrite (Hp2 _), <- (Hp1 _) in Hin.
      assert (is_fulfilled p = true); [|congruence].
      apply (Promise_all_fulfilled
               (call_promise <$> completion1 (promises st)));
        [by eexists|done].
    - assert (Hex : ∃ e, Promise_all
                           (call_promise <$> completion1 (promises st))
                         = Rejected e) by (by eexists).
      apply Promise_all_rejected in Hex as (p & Hin & Hrej).
      rewrite (Hp1 _), <- (Hp2 _) in Hin.
      assert (is_fulfilled p = true); [|congruence].
      apply (Promise_all_fulfilled
               (call_promise <$> completion2 (promises st)));
        [by eexists|done]. }
  destruct err as [e|]; [by rewrite Hstored|].
  rewrite <- Hstored.
  destruct (Promise_all (call_promise <$> completion1 (promises st)));
    destruct (Promise_all (call_promise <$> completion2 (promises st)));
    done.
Qed.

(** ** How many calls, how many clock readings *)

Lemma webhook_keys_length (ws : list Webhook) :
  (length (webhook_keys env ws) ≤ length ws)%nat.
Proof.
  induction ws as [|w ws IH]; [done|].
  rewrite webhook_keys_cons, length_app.
  change (length (w :: ws)) with (S (length ws)).
  assert (length (webhook_keys env [w]) ≤ 1)%nat; [|lia].
  unfold webhook_keys. simpl. destruct (subscription_query w); simpl; lia.
Qed.

Lemma for_checkouts_length (apps_map : gmap Z App)
    (pairs : list (CheckoutInfo Token Extra * LinesInfo)) st :
  (length (promises (for_checkouts env apps_map pairs st).1)
   ≤ length (promises st)
     + length pairs * length (get_webhooks_for_event env))%nat.
Proof.
  revert st. induction pairs as [|[ci li] pairs IH]; intros st.
  - simpl. lia.
  - rewrite for_checkouts_cons.
    destruct (eval_checkout_appends env apps_map ci li st)
      as (new & Hnew & _ & Hsub).
    apply sublist_length in Hsub. rewrite length_fmap in Hsub.
    pose proof (webhook_keys_length (get_webhooks_for_event env)) as Hk.
    destruct (eval_checkout env apps_map (ci, li) st) as [st' [e|]];
      simpl in *.
    + rewrite Hnew, length_app. lia.
    + specialize (IH st'). rewrite Hnew, length_app in IH. lia.
Qed.

(** X7. At most one call is issued per pair of a checkout and a webhook:
    the number of issued calls is bounded by the number of webhooks times
    the number of checkout infos, and likewise times the number of line
    infos ([zip] stops at the shorter list). *)
Theorem issued_calls_bound keys deps completion :
  (∀ cis, dep_checkouts_info deps = Fulfilled cis →
     (length (issued (batch_load env keys deps completion))
      ≤ length cis * length (get_webhooks_for_event env))%nat)
  ∧ (∀ lis, dep_lines deps = Fulfilled lis →
       (length (issued (batch_load env keys deps completion))
        ≤ length lis * length (get_webhooks_for_event env))%nat).
Proof.
  assert (Hboth : ∀ cis lis,
            dep_checkouts_info deps = Fulfilled cis →
            dep_lines deps = Fulfilled lis →
            (length (issued (batch_load env keys deps completion))
             ≤ (length cis `min` length lis)
               * length (get_webhooks_for_event env))%nat).
  { intros cis lis Hc Hl.
    destruct (batch_load_view env keys deps completion)
      as [[e ->]|(cis' & lis' & apps & apps_map & Hc' & Hl' & Ha & _ & Hb)].
    - simpl. lia.
    - destruct (batch_load_evaluated env keys deps completion _ _ _ _
                  Hc' Hl' Ha Hb) as (-> & _).
      assert (cis' = cis) as -> by congruence.
      assert (lis' = lis) as -> by congruence.
      pose proof (for_checkouts_length apps_map (zip cis lis)
                    {| clock_reads := 0; promises := [] |}) as Hlen.
      simpl in Hlen. by rewrite length_zip in Hlen. }
  split.
  - intros cis Hc.
    destruct (batch_load_view env keys deps completion)
      as [[e ->]|(cis' & lis & apps & apps_map & Hc' & Hl & _)].
    + simpl. lia.
    + assert (cis' = cis) as -> by congruence.
      specialize (Hboth cis lis Hc Hl). nia.
  - intros lis Hl.
    destruct (batch_load_view env keys deps completion)
      as [[e ->]|(cis & lis' & apps & apps_map & Hc & Hl' & _)].
    + simpl. lia.
    + assert (lis' = lis) as -> by congruence.
      specialize (Hboth cis lis Hc Hl). nia.
Qed.

Lemma eval_checkout_clock_exact (apps_map : gmap Z App) ci li st :
  clock_reads (eval_checkout env apps_map (ci, li) st).1
  = (clock_reads st
     + if decide (resolved_tax_strategy env ci li = Some TAX_APP)
       then 1 else 0)%nat.
Proof.
  unfold eval_checkout, resolved_tax_strategy.
  destruct (get_tax_configuration_for_checkout env ci li) as [tc ctc].
  destruct (decide (get_tax_calculation_strategy env tc ctc = Some TAX_APP))
    as [Hs|Hs].
  - rewrite bool_decide_eq_true_2 by done.
    destruct (bool_decide _); simpl; [|lia].
    destruct (for_webhooks _ _ _ _ _ _). simpl. lia.
  - rewrite bool_decide_eq_false_2 by done. simpl. lia.
Qed.

(** X8. The loop reads the clock once for each checkout it evaluates whose
    strategy is the tax-app strategy and never for another checkout: after
    the loop the number of readings has grown by at most the number of such
    checkouts, and by exactly that number when the loop raised nothing. *)
Theorem clock_reads_count (apps_map : gmap Z App)
    (pairs : list (CheckoutInfo Token Extra * LinesInfo)) st :
  (clock_reads (for_checkouts env apps_map pairs st).1
   ≤ clock_reads st
     + length (filter (λ item, resolved_tax_strategy env item.1 item.2
                               = Some TAX_APP) pairs))%nat
  ∧ ((for_checkouts env apps_map pairs st).2 = None →
     clock_reads (for_checkouts env apps_map pairs st).1
     = (clock_reads st
        + length (filter (λ item, resolved_tax_strategy env item.1 item.2
                                  = Some TAX_APP) pairs))%nat).
Proof.
  revert st. induction pairs as [|[ci li] pairs IH]; intros st.
  - simpl. split; [lia|intros _; lia].
  - rewrite for_checkouts_cons, filter_cons. cbn [fst snd].
    pose proof (eval_checkout_clock_exact apps_map ci li st) as Hstep.
    destruct (eval_checkout env apps_map (ci, li) st) as [st' [e|]];
      simpl in *.
    + split; [|done].
      destruct (decide (resolved_tax_strategy env ci li = Some TAX_APP));
        simpl; lia.
    + destruct (IH st') as [IHle IHeq].
      destruct (decide (resolved_tax_strategy env ci li = Some TAX_APP));
        simpl; (split; [lia|intros Hn; specialize (IHeq Hn); lia]).
Qed.

(** ** The apps map *)

Lemma build_apps_map_entry (apps : list (option App)) (m apps_map : gmap Z App)
    (k : Z) (app : App) :
  build_apps_map apps m = inr apps_map →
  apps_map !! k = Some app →
  m !! k = Some app ∨ (App_id app = k ∧ Some app ∈ apps).
Proof.
  revert m. induction apps as [|[app'|] apps IH]; intros m; simpl.
  - intros [= ->] Hk. by left.
  - intros Hb Hk. destruct (IH _ Hb Hk) as [Hm|[? ?]].
    + destruct (decide (App_id app' = k)) as [<-|Hne].
      * rewrite lookup_insert_eq in Hm. injection Hm as ->.
        right. split; [done|by left].
      * rewrite lookup_insert_ne in Hm by done. by left.
    + right. split; [done|by right].
  - done.
Qed.

Lemma build_apps_map_last (l2 : list (option App)) (m apps_map : gmap Z App)
    (app : App) :
  build_apps_map l2 m = inr apps_map →
  m !! App_id app = Some app →
  (∀ app', Some app' ∈ l2 → App_id app' ≠ App_id app) →
  apps_map !! App_id app = Some app.
Proof.
  revert m. induction l2 as [|[app'|] l2 IH]; intros m; simpl.
  - by intros [= ->].
  - intros Hb Hm Hlater. apply (IH _ Hb).
    + rewrite lookup_insert_ne; [done|]. apply Hlater. by left.
    + intros app'' Hin. apply Hlater. by right.
  - done.
Qed.

Lemma build_apps_map_app (l1 l2 : list (option App)) (m apps_map : gmap Z App) :
  build_apps_map (l1 ++ l2) m = inr apps_map →
  ∃ m1, build_apps_map l1 m = inr m1 ∧ build_apps_map l2 m1 = inr apps_map.
Proof.
  revert m. induction l1 as [|[app|] l1 IH]; intros m; simpl.
  - intros Hb. by exists m.
  - apply IH.
  - done.
Qed.

(** X9. The dict comprehension that builds [apps_map] keys every record by
    its own id: an entry under [k] is a record of the loader's result whose
    id is [k], every record of the result has an entry under its id, and
    when several records share an id the last one of the list is kept. *)
Theorem apps_map_entries (apps : list (option App)) (apps_map : gmap Z App) :
  build_apps_map apps ∅ = inr apps_map →
  (∀ (k : Z) (app : App), apps_map !! k = Some app →
     App_id app = k ∧ Some app ∈ apps)
  ∧ (∀ app : App, Some app ∈ apps → is_Some (apps_map !! App_id app))
  ∧ (∀ (l1 l2 : list (option App)) (app : App),
       apps = l1 ++ Some app :: l2 →
       (∀ app', Some app' ∈ l2 → App_id app' ≠ App_id app) →
       apps_map !! App_id app = Some app).
Proof.
  intros Hb. split; [|split].
  - intros k app Hk.
    destruct (build_apps_map_entry apps ∅ apps_map k app Hb Hk) as [Hm|?];
      [|done].
    by rewrite lookup_empty in Hm.
  - intros app. by apply (build_apps_map_covers apps ∅).
  - intros l1 l2 app -> Hlater.
    apply build_apps_map_app in Hb as (m1 & _ & Hb2). simpl in Hb2.
    apply (build_apps_map_last l2 _ _ _ Hb2); [|done].
    by rewrite lookup_insert_eq.
Qed.

(** ** Where the issued calls and the stored payloads come from *)

(** Everything known of an issued call. *)
Lemma issued_call_sources keys deps completion c :
  c ∈ issued (batch_load env keys deps completion) →
  ∃ cis lis apps ci li (w : Webhook),
    dep_checkouts_info deps = Fulfilled cis
    ∧ dep_lines deps = Fulfilled lis
    ∧ dep_apps deps = Fulfilled apps
    ∧ (ci, li) ∈ zip cis lis
    ∧ w ∈ get_webhooks_for_event env
    ∧ call_checkout c = checkout ci
    ∧ call_checkout_token c = str env (pk (call_checkout c))
    ∧ subscription_query w = Some (call_subscription_query c)
    ∧ call_subscription_query c ≠ EmptyString
    ∧ call_query_hash c
      = get_subscription_query_hash env (call_subscription_query c)
    ∧ call_app_id c = app_id w
    ∧ App_id (call_app c) = app_id w
    ∧ Some (call_app c) ∈ apps
    ∧ (str_truthy (resolved_tax_app_id env ci li) = false
       ∨ resolved_tax_app_id env ci li = Some (identifier (call_app c))).
Proof.
  intros Hc.
  destruct (batch_load_view env keys deps completion)
    as [[e Hr]|(cis & lis & apps & apps_map & Hci & Hl & Ha & _ & Hb)].
  { rewrite Hr in Hc. by apply elem_of_nil in Hc. }
  destruct (batch_load_evaluated env keys deps completion _ _ _ _
              Hci Hl Ha Hb) as (Hi & _).
  rewrite Hi in Hc. apply for_checkouts_calls in Hc as [Hc|Ho].
  { by apply elem_of_nil in Hc. }
  destruct Ho as (ci & li & n & w & Hin & _ & _ & Hw & Hsel & Hcw).
  destruct (call_of_webhook_facts env apps_map ci c w Hcw)
    as (Hck & Htok & Haid & _ & app & query & Happ & Hq & Hca & Hcq & Hh).
  subst app query.
  destruct (build_apps_map_entry apps ∅ apps_map _ _ Hb Happ) as [Hm|[Hid Hin']].
  { by rewrite lookup_empty in Hm. }
  unfold selected_in in Hsel. rewrite Happ in Hsel.
  unfold candidate_selected in Hsel. rewrite Hq in Hsel.
  apply andb_true_iff in Hsel as [Hquery Hpref].
  exists cis, lis, apps, ci, li, w.
  repeat (split; [done|]).
  split; [by rewrite Hck|]. split; [done|].
  split; [by destruct (call_subscription_query c)|].
  repeat (split; [done|]).
  apply orb_true_iff in Hpref as [Hp|Hp].
  - left. by apply negb_true_iff.
  - right. by apply bool_decide_eq_true in Hp.
Qed.

(** X10. Every issued call was made for a checkout of the zipped input and
    a webhook of the event: with that webhook's non-empty query, with the
    app record of the loader's result whose id is the webhook's app id, and
    only when the checkout has no preferred tax app or prefers exactly this
    app; the triple it captured is the token of its checkout, the id of its
    app and the hash of its query. *)
Theorem issued_call_facts keys deps completion c :
  c ∈ issued (batch_load env keys deps completion) →
  ∃ cis lis apps ci li (w : Webhook),
    dep_checkouts_info deps = Fulfilled cis
    ∧ dep_lines deps = Fulfilled lis
    ∧ dep_apps deps = Fulfilled apps
    ∧ (ci, li) ∈ zip cis lis
    ∧ w ∈ get_webhooks_for_event env
    ∧ call_checkout c = checkout ci
    ∧ subscription_query w = Some (call_subscription_query c)
    ∧ call_subscription_query c ≠ EmptyString
    ∧ App_id (call_app c) = app_id w
    ∧ Some (call_app c) ∈ apps
    ∧ (str_truthy (resolved_tax_app_id env ci li) = false
       ∨ resolved_tax_app_id env ci li = Some (identifier (call_app c)))
    ∧ call_triple c
      = (str env (pk (call_checkout c)), App_id (call_app c),
         get_subscription_query_hash env (call_subscription_query c)).
Proof.
  intros Hc.
  destruct (issued_call_sources keys deps completion c Hc)
    as (cis & lis & apps & ci & li & w & ? & ? & ? & ? & ? & ? & Htok & ?
        & ? & Hh & Haid & Hid & ? & ?).
  exists cis, lis, apps, ci, li, w. repeat (split; [done|]).
  unfold call_triple. by rewrite Htok, Hh, Haid, Hid.
Qed.

(** X11. Every payload in a returned mapping is accounted for: the payload
    found at position [i] under app id [a] and hash [h] is the non-empty
    payload with which an issued call completed, a call made for a checkout
    whose token is that of key [i], for the app with id [a] and with a query
    that hashes to [h]. *)
Theorem returned_payload_provenance keys deps completion
    (payloads : list NestedMap) (i : nat) (m : NestedMap) (a : Z)
    (by_hash : gmap string Payload) (h : string) (p : Payload) :
  (∀ l, completion l ≡ₚ l) →
  outcome (batch_load env keys deps completion) = Fulfilled payloads →
  payloads !! i = Some m →
  m !! a = Some by_hash →
  by_hash !! h = Some p →
  ∃ (k : Token) c,
    keys !! i = Some k
    ∧ c ∈ issued (batch_load env keys deps completion)
    ∧ call_promise c = Fulfilled (Some p)
    ∧ p ≠ ∅
    ∧ str env (pk (call_checkout c)) = str env k
    ∧ App_id (call_app c) = a
    ∧ get_subscription_query_hash env (call_subscription_query c) = h.
Proof.
  intros Hperm Hout Hm Ha Hh.
  destruct (batch_load_fulfilled_values env keys deps completion payloads
              Hout) as [-> _].
  rewrite list_lookup_fmap in Hm.
  destruct (keys !! i) as [k|] eqn:Hk; [|done]. simpl in Hm.
  injection Hm as <-.
  destruct (stored (batch_load env keys deps completion) !! str env k)
    as [m|] eqn:Hs; simpl in Ha; [|by rewrite lookup_empty in Ha].
  destruct (batch_load_stored_origin env keys deps completion
              (str env k, a, h) p Hperm) as (c & Hc & Htr & Hp & Hne).
  { unfold lookup3. simpl. by rewrite Hs; simpl; rewrite Ha. }
  destruct (issued_call_sources keys deps completion c Hc)
    as (_ & _ & _ & _ & _ & w & _ & _ & _ & _ & _ & _ & Htok & _
        & _ & Hhash & Haid & Hid & _).
  unfold call_triple in Htr. injection Htr as Ht Ha' Hh'.
  exists k, c. repeat (split; [done|]).
  split; [congruence|]. split; congruence.
Qed.

(** X12. With pairwise distinct triples among the issued calls nothing is
    lost: the non-empty payload of every completed call is in the returned
    mapping at every position of its checkout's token, under the call's app
    id and query hash. *)
Theorem returned_payload_complete keys deps completion
    (payloads : list NestedMap) c (p : Payload) (i : nat) (k : Token) :
  (∀ l, completion l ≡ₚ l) →
  NoDup (call_triple <$> issued (batch_load env keys deps completion)) →
  outcome (batch_load env keys deps completion) = Fulfilled payloads →
  c ∈ issued (batch_load env keys deps completion) →
  call_promise c = Fulfilled (Some p) →
  p ≠ ∅ →
  keys !! i = Some k →
  str env k = call_checkout_token c →
  ∃ (m : NestedMap) (by_hash : gmap string Payload),
    payloads !! i = Some m
    ∧ m !! call_app_id c = Some by_hash
    ∧ by_hash !! call_query_hash c = Some p.
Proof.
  intros Hperm Hnd Hout Hc Hp Hne Hk Htok.
  destruct (batch_load_fulfilled_values env keys deps completion payloads
              Hout) as [-> _].
  rewrite list_lookup_fmap, Hk. simpl.
  assert (Hl : lookup3 (stored (batch_load env keys deps completion))
                 (call_triple c) = Some p).
  { rewrite (batch_load_stored env keys deps completion Hperm).
    apply run_callbacks_own_triple; try done; by rewrite (Hperm _). }
  unfold lookup3, call_triple in Hl. simpl in Hl. rewrite Htok.
  destruct (stored (batch_load env keys deps completion)
              !! call_checkout_token c) as [m|]; [|done].
  simpl in Hl. destruct (m !! call_app_id c) as [by_hash|] eqn:Hm; [|done].
  simpl in Hl. by exists m, by_hash.
Qed.

(** ** What return_payloads leaves behind *)

Lemma return_payloads_store_lookup keys R (t : string) :
  (return_payloads env keys R).2 !! t
  = match R !! t with
    | Some v => Some v
    | None => if decide (t ∈ str env <$> keys) then Some ∅ else None
    end.
Proof.
  revert R. induction keys as [|k keys IH]; intros R.
  - cbn [return_payloads snd]. destruct (R !! t); [done|].
    rewrite fmap_nil. case_decide as Hin; [|done].
    by apply elem_of_nil in Hin.
  - cbn [return_payloads].
    pose proof (defaultdict_getitem_present R (str env k)) as Hpres.
    pose proof (defaultdict_getitem_keeps R (str env k) t) as Hkeep.
    assert (Hother : str env k ≠ t →
              (defaultdict_getitem R (str env k)).2 !! t = R !! t).
    { intros Hne. unfold defaultdict_getitem.
      destruct (R !! str env k); simpl; [done|].
      by rewrite lookup_insert_ne. }
    destruct (defaultdict_getitem R (str env k)) as [v R1].
    specialize (IH R1).
    destruct (return_payloads env keys R1) as [vs R2]. simpl in *.
    rewrite IH.
    destruct (R !! t) as [v'|] eqn:Ht.
    + by rewrite (Hkeep v' eq_refl).
    + destruct (decide (str env k = t)) as [Heq|Hne].
      * rewrite Heq in Hpres. rewrite Hpres, Ht. simpl.
        rewrite decide_True; [done|]. rewrite Heq. by left.
      * rewrite (Hother Hne).
        destruct (decide (t ∈ str env <$> keys)) as [Hin|Hnin].
        -- rewrite decide_True; [done|]. by right.
        -- rewrite decide_False; [done|].
           intros [?|?]%elem_of_cons; [congruence|done].
Qed.

(** X13. Reading [results] in [return_payloads] has the side effect of a
    [defaultdict]: when [batch_load] returns, [results] holds every stored
    entry unchanged and, in addition, an empty mapping for each requested
    token that had no entry; no payload is added, changed or removed. *)
Theorem results_after_return keys deps completion
    (payloads : list NestedMap) :
  outcome (batch_load env keys deps completion) = Fulfilled payloads →
  (∀ t : string,
     results (batch_load env keys deps completion) !! t
     = match stored (batch_load env keys deps completion) !! t with
       | Some v => Some v
       | None => if decide (t ∈ str env <$> keys) then Some ∅ else None
       end)
  ∧ (∀ tr : string * Z * string,
       lookup3 (results (batch_load env keys deps completion)) tr
       = lookup3 (stored (batch_load env keys deps completion)) tr)
  ∧ (∀ k : Token, k ∈ keys →
       is_Some (results (batch_load env keys deps completion) !! str env k)).
Proof.
  intros Hout.
  destruct (batch_load_fulfilled_values env keys deps completion payloads
              Hout) as [_ Hres].
  assert (Hlook : ∀ t : string,
     results (batch_load env keys deps completion) !! t
     = match stored (batch_load env keys deps completion) !! t with
       | Some v => Some v
       | None => if decide (t ∈ str env <$> keys) then Some ∅ else None
       end).
  { intros t. rewrite Hres. apply return_payloads_store_lookup. }
  split; [exact Hlook|]. split.
  - intros [[t a] h]. unfold lookup3. simpl. rewrite Hlook.
    destruct (stored (batch_load env keys deps completion) !! t); [done|].
    simpl. by destruct (decide (t ∈ str env <$> keys)).
  - intros k Hk. rewrite Hlook.
    destruct (stored (batch_load env keys deps completion) !! str env k);
      [by eexists|].
    rewrite decide_True; [by eexists|]. by apply list_elem_of_fmap_2.
Qed.

(** ** The turns of the loop *)

Lemma turn_clock_0 (pairs : list (CheckoutInfo Token Extra * LinesInfo)) :
  turn_clock env pairs 0 = 0%nat.
Proof. unfold turn_clock. by rewrite take_0. Qed.

Lemma turn_clock_S ci li
    (pairs : list (CheckoutInfo Token Extra * LinesInfo)) (j : nat) :
  turn_clock env ((ci, li) :: pairs) (S j)
  = ((if decide (resolved_tax_strategy env ci li = Some TAX_APP)
      then 1 else 0) + turn_clock env pairs j)%nat.
Proof.
  unfold turn_clock. rewrite firstn_cons, filter_cons. cbn [fst snd].
  by destruct (decide (resolved_tax_strategy env ci li = Some TAX_APP)).
Qed.

(** With the app of every webhook in [apps_map] the loop raises nothing and
    the calls it appends fall into one group per checkout: none for a
    checkout that is not eligible at the clock reading of its turn, and for
    an eligible one exactly one call per selected webhook, in webhook
    order. *)
Lemma for_checkouts_turns (apps_map : gmap Z App)
    (pairs : list (CheckoutInfo Token Extra * LinesInfo)) st :
  (∀ w, w ∈ get_webhooks_for_event env → is_Some (apps_map !! app_id w)) →
  ∃ turns : list (list (GenerationCall Token)),
    promises (for_checkouts env apps_map pairs st).1
    = promises st ++ concat turns
    ∧ length turns = length pairs
    ∧ ∀ (j : nat) ci li, pairs !! j = Some (ci, li) →
        ∃ new, turns !! j = Some new
          ∧ (eligible env
               (timezone_now env (clock_reads st + turn_clock env pairs j))
               ci li = true →
             Forall2 (call_of_webhook env apps_map ci) new
               (filter (λ w, selected_in apps_map
                               (resolved_tax_app_id env ci li) w = true)
                  (get_webhooks_for_event env)))
          ∧ (eligible env
               (timezone_now env (clock_reads st + turn_clock env pairs j))
               ci li = false → new = []).
Proof.
  intros Hall. revert st.
  induction pairs as [|[ci0 li0] pairs IH]; intros st.
  - exists []. simpl. rewrite app_nil_r. repeat split; try done.
  - rewrite for_checkouts_cons.
    pose proof (eval_checkout_clock_exact apps_map ci0 li0 st) as Hclock.
    assert (Hturn : ∃ new0,
              promises (eval_checkout env apps_map (ci0, li0) st).1
              = promises st ++ new0
              ∧ (eval_checkout env apps_map (ci0, li0) st).2 = None
              ∧ (eligible env (timezone_now env (clock_reads st)) ci0 li0
                 = true →
                 Forall2 (call_of_webhook env apps_map ci0) new0
                   (filter (λ w, selected_in apps_map
                                   (resolved_tax_app_id env ci0 li0) w
                                 = true)
                      (get_webhooks_for_event env)))
              ∧ (eligible env (timezone_now env (clock_reads st)) ci0 li0
                 = false → new0 = [])).
    { destruct (eligible env (timezone_now env (clock_reads st)) ci0 li0)
        eqn:He.
      - destruct (eval_checkout_selection env apps_map ci0 li0 st He)
          as [(new0 & Heq & Hcalls) _].
        { apply Forall_forall. exact Hall. }
        exists new0. rewrite Heq. simpl. repeat split; done.
      - destruct (eval_checkout_ineligible env apps_map ci0 li0 st He)
          as [Hp Herr].
        exists []. rewrite app_nil_r. repeat split; done. }
    destruct Hturn as (new0 & Hp0 & Herr0 & Hyes & Hno).
    rewrite Herr0.
    destruct (IH (eval_checkout env apps_map (ci0, li0) st).1)
      as (turns & Hps & Hlen & Hturns).
    exists (new0 :: turns). split; [|split].
    + rewrite Hps, Hp0. simpl. by rewrite app_assoc.
    + simpl. by rewrite Hlen.
    + intros [|j] ci li Hj.
      * simpl in Hj. injection Hj as <- <-. exists new0.
        rewrite turn_clock_0, Nat.add_0_r. done.
      * simpl in Hj. destruct (Hturns j ci li Hj) as (new & Hnew & H1 & H2).
        exists new. split; [done|].
        rewrite turn_clock_S.
        replace (clock_reads st
                 + ((if decide (resolved_tax_strategy env ci0 li0
                                = Some TAX_APP) then 1 else 0)
                    + turn_clock env pairs j))%nat
          with (clock_reads (eval_checkout env apps_map (ci0, li0) st).1
                + turn_clock env pairs j)%nat
          by (rewrite Hclock; lia).
        done.
Qed.

(** C3, as the code has it.  When the dependencies resolved and [apps_map]
    holds a record for the app id of every webhook, [batch_load] issues its
    calls checkout by checkout: none for a checkout that is not eligible at
    the clock reading of its turn, and for an eligible one exactly one call
    per selected webhook, in webhook order, and no other.  A webhook of app
    [app] is selected if and only if its subscription query is truthy and
    either the checkout's preferred tax-app identifier is falsy or it is the
    identifier of [app]. *)
Theorem candidate_selection keys deps completion
    (cis : list (CheckoutInfo Token Extra)) (lis : list LinesInfo)
    (apps : list (option App)) (apps_map : gmap Z App) :
  dep_checkouts_info deps = Fulfilled cis →
  dep_lines deps = Fulfilled lis →
  dep_apps deps = Fulfilled apps →
  build_apps_map apps ∅ = inr apps_map →
  (∀ w, w ∈ get_webhooks_for_event env → is_Some (apps_map !! app_id w)) →
  (∃ turns : list (list (GenerationCall Token)),
     issued (batch_load env keys deps completion) = concat turns
     ∧ length turns = length (zip cis lis)
     ∧ ∀ (j : nat) ci li, zip cis lis !! j = Some (ci, li) →
         ∃ new, turns !! j = Some new
           ∧ (eligible env
                (timezone_now env (turn_clock env (zip cis lis) j)) ci li
              = true →
              Forall2 (call_of_webhook env apps_map ci) new
                (filter (λ w, selected_in apps_map
                                (resolved_tax_app_id env ci li) w = true)
                   (get_webhooks_for_event env)))
           ∧ (eligible env
                (timezone_now env (turn_clock env (zip cis lis) j)) ci li
              = false → new = []))
  ∧ (∀ ci li (w : Webhook) (app : App),
       apps_map !! app_id w = Some app →
       selected_in apps_map (resolved_tax_app_id env ci li) w = true
       ↔ str_truthy (subscription_query w) = true
         ∧ (str_truthy (resolved_tax_app_id env ci li) = false
            ∨ resolved_tax_app_id env ci li = Some (identifier app))).
Proof.
  intros Hc Hl Ha Hb Hall. split.
  - destruct (batch_load_evaluated env keys deps completion _ _ _ _
                Hc Hl Ha Hb) as (Hi & _).
    destruct (for_checkouts_turns apps_map (zip cis lis)
                {| clock_reads := 0; promises := [] |} Hall)
      as (turns & Hps & Hlen & Hturns).
    exists turns. rewrite Hi, Hps. simpl. repeat split; done.
  - intros ci li w app Happ. unfold selected_in, candidate_selected.
    rewrite Happ, andb_true_iff, orb_true_iff, negb_true_iff,
      bool_decide_eq_true.
    split; intros [Hq [Hp|Hp]]; (split; [done|]);
      ((by left) || (by right)).
Qed.

(** ** When the loop raises *)





(** X16. Without a webhook for the event nothing is generated: when the
    dependencies resolve, [batch_load] issues no call and returns one empty
    mapping per key, however many checkouts are eligible. *)
Theorem no_webhooks_all_empty keys deps completion
    (cis : list (CheckoutInfo Token Extra)) (lis : list LinesInfo)
    (apps : list (option App)) :
  (∀ l, completion l ≡ₚ l) →
  get_webhooks_for_event env = [] →
  dep_checkouts_info deps = Fulfilled cis →
  dep_lines deps = Fulfilled lis →
  dep_apps deps = Fulfilled apps →
  None ∉ apps →
  issued (batch_load env keys deps completion) = []
  ∧ outcome (batch_load env keys deps completion)
    = Fulfilled (replicate (length keys) ∅).
Proof.
  intros Hperm Hws Hc Hl Ha Hnin.
  destruct (build_apps_map_present apps ∅ Hnin) as [apps_map Hb].
  destruct (batch_load_evaluated env keys deps completion _ _ _ _
              Hc Hl Ha Hb) as (Hi & Hs & Ho & _).
  pose proof (for_checkouts_length apps_map (zip cis lis)
                {| clock_reads := 0; promises := [] |}) as Hlen.
  rewrite Hws in Hlen. simpl in Hlen.
  assert (Hnil : promises (for_checkouts env apps_map (zip cis lis)
                             {| clock_reads := 0; promises := [] |}).1 = []).
  { apply length_zero_iff_nil. lia. }
  rewrite for_checkouts_no_error in Ho
    by (intros w Hw; rewrite Hws in Hw; by apply elem_of_nil in Hw).
  rewrite Hnil in Hi, Hs, Ho.
  rewrite (run_callbacks_perm_nil completion Hperm) in Hs, Ho.
  split; [done|]. rewrite Ho, Hs. simpl. f_equal.
  clear. induction keys as [|k ks IH]; [done|].
  rewrite fmap_cons, IH. by rewrite lookup_empty.
Qed.

End OrchestratorMore.

(* ===================================================================== *)
(** * The further properties on the concrete shop *)
(* ===================================================================== *)

Lemma payload_in_bulk_fetches (keys : list Z) (k : Z) :
  k ∈ keys → Shop.payload_in_bulk keys !! k = Shop.payload_rows !! k.
Proof.
  intros Hk. unfold Shop.payload_in_bulk.
  destruct (Shop.payload_rows !! k) as [text|] eqn:Hrow.
  - by apply map_lookup_filter_Some_2.
  - apply map_lookup_filter_None_2. by left.
Qed.

Lemma amount_10_not_empty : Shop.amount_10 ≠ ∅.
Proof. intros Heq. vm_compute in Heq. discriminate. Qed.

Lemma amount_12_not_empty : Shop.amount_12 ≠ ∅.
Proof. intros Heq. vm_compute in Heq. discriminate. Qed.

Lemma grouping_loaders_partition_witness :
  NoDup [20; 30; 10]
  ∧ concat (WebhookEventsByWebhookIdLoader_batch_load Shop.event_rows
              [20; 30; 10])
      ≡ₚ filter_fk_in webhook_id Shop.event_rows [20; 30; 10]
  ∧ concat (WebhooksByAppIdLoader_batch_load Shop.webhook_rows [20; 30; 10])
      ≡ₚ filter_fk_in app_id Shop.webhook_rows [20; 30; 10].
Proof.
  assert (Hnd : NoDup [20; 30; 10])
    by (apply (bool_decide_unpack _); vm_compute; exact I).
  split; [exact Hnd|].
  exact (grouping_loaders_partition Shop.event_rows Shop.webhook_rows
           [20; 30; 10] Hnd).
Defined.

Lemma grouping_loaders_batching_witness :
  [20; 30; 10] !! 2%nat = Some 10
  ∧ WebhookEventsByWebhookIdLoader_batch_load Shop.event_rows [20; 30; 10]
      !! 2%nat
    = WebhookEventsByWebhookIdLoader_batch_load Shop.event_rows [10] !! 0%nat
  ∧ WebhooksByAppIdLoader_batch_load Shop.webhook_rows [20; 30; 10] !! 2%nat
    = WebhooksByAppIdLoader_batch_load Shop.webhook_rows [10] !! 0%nat.
Proof.
  split; [reflexivity|].
  exact (proj2 (proj2 (grouping_loaders_batching Shop.event_rows
                         Shop.webhook_rows [20; 30; 10] []))
           2%nat 10 eq_refl).
Defined.

Lemma PayloadByIdLoader_batching_witness :
  (∀ (keys : list Z) (k : Z),
     k ∈ keys → Shop.payload_in_bulk keys !! k = Shop.payload_rows !! k)
  ∧ PayloadByIdLoader_batch_load (λ text : string, text)
      Shop.payload_in_bulk [3; 2]
    = (λ k, (λ text : string, text) <$> Shop.payload_rows !! k) <$> [3; 2]
  ∧ PayloadByIdLoader_batch_load (λ text : string, text)
      Shop.payload_in_bulk ([3; 2] ++ [1; 3])
    = PayloadByIdLoader_batch_load (λ text : string, text)
        Shop.payload_in_bulk [3; 2]
      ++ PayloadByIdLoader_batch_load (λ text : string, text)
           Shop.payload_in_bulk [1; 3]
  ∧ ∀ (i j : nat) (k : Z), [3; 2] !! i = Some k → [3; 2] !! j = Some k →
      PayloadByIdLoader_batch_load (λ text : string, text)
        Shop.payload_in_bulk [3; 2] !! i
      = PayloadByIdLoader_batch_load (λ text : string, text)
          Shop.payload_in_bulk [3; 2] !! j.
Proof.
  split; [exact payload_in_bulk_fetches|].
  exact (PayloadByIdLoader_batching (λ text : string, text)
           Shop.payload_in_bulk Shop.payload_rows [3; 2] [1; 3]
           payload_in_bulk_fetches).
Defined.

Lemma store_payload_read_back_witness :
  Shop.amount_10 ≠ ∅
  ∧ lookup3 (store_payload (Some Shop.amount_10) "c1" 7 "h1" ∅)
      ("c1", 7, "h1") = Some Shop.amount_10
  ∧ (∀ tr, tr ≠ ("c1", 7, "h1") →
       lookup3 (store_payload (Some Shop.amount_10) "c1" 7 "h1" ∅) tr
       = lookup3 ∅ tr)
  ∧ is_Some (store_payload (Some Shop.amount_10) "c1" 7 "h1" ∅ !! "c1").
Proof.
  split; [exact amount_10_not_empty|].
  exact (proj1 (store_payload_read_back "c1" 7 "h1" Shop.amount_10 ∅)
           amount_10_not_empty).
Defined.

Lemma last_completed_call_wins_witness :
  call_promise Shop.rival_call = Fulfilled (Some Shop.amount_12)
  ∧ call_triple Shop.example_call = call_triple Shop.rival_call
  ∧ lookup3 (run_callbacks ([Shop.example_call] ++ Shop.rival_call :: []) ∅)
      (call_triple Shop.rival_call) = Some Shop.amount_12.
Proof.
  split; [reflexivity|]. split; [reflexivity|].
  refine (last_completed_call_wins [Shop.example_call] [] Shop.rival_call
            Shop.amount_12 ∅ eq_refl amount_12_not_empty _).
  intros c' Hc'. by apply elem_of_nil in Hc'.
Defined.

Lemma completion_order_irrelevant_witness :
  NoDup (call_triple <$> issued Shop.two_apps_run_fifo)
  ∧ issued Shop.two_apps_run_fifo = issued Shop.two_apps_run
  ∧ stored Shop.two_apps_run_fifo = stored Shop.two_apps_run
  ∧ is_fulfilled (outcome Shop.two_apps_run_fifo)
    = is_fulfilled (outcome Shop.two_apps_run)
  ∧ ∀ payloads : list NestedMap,
      outcome Shop.two_apps_run_fifo = Fulfilled payloads →
      outcome Shop.two_apps_run = Fulfilled payloads
      ∧ results Shop.two_apps_run_fifo = results Shop.two_apps_run.
Proof.
  assert (Hnd : NoDup (call_triple <$> issued Shop.two_apps_run_fifo))
    by (apply (bool_decide_unpack _); vm_compute; exact I).
  split; [exact Hnd|].
  exact (completion_order_irrelevant Shop.two_apps_env ["c1"; "c2"]
           Shop.two_apps_deps Shop.fifo Shop.lifo
           fifo_permutes lifo_permutes Hnd).
Defined.

Lemma issued_calls_bound_witness :
  dep_checkouts_info Shop.two_apps_deps = Fulfilled [Shop.c1; Shop.c2]
  ∧ (length (issued Shop.two_apps_run)
     ≤ length [Shop.c1; Shop.c2]
       * length (get_webhooks_for_event Shop.two_apps_env))%nat.
Proof.
  split; [reflexivity|].
  exact (proj1 (issued_calls_bound Shop.two_apps_env ["c1"; "c2"]
                  Shop.two_apps_deps Shop.lifo)
           [Shop.c1; Shop.c2] eq_refl).
Defined.

Lemma clock_reads_count_witness :
  (for_checkouts Shop.two_apps_env Shop.two_apps_map
     [(Shop.c1, tt); (Shop.c3_flat, tt); (Shop.c2, tt)] Shop.start).2 = None
  ∧ clock_reads
      (for_checkouts Shop.two_apps_env Shop.two_apps_map
         [(Shop.c1, tt); (Shop.c3_flat, tt); (Shop.c2, tt)] Shop.start).1
    = (clock_reads Shop.start
       + length (filter (λ item, resolved_tax_strategy Shop.two_apps_env
                                   item.1 item.2 = Some TAX_APP)
                   [(Shop.c1, tt); (Shop.c3_flat, tt); (Shop.c2, tt)]))%nat.
Proof.
  assert (Hok : (for_checkouts Shop.two_apps_env Shop.two_apps_map
                   [(Shop.c1, tt); (Shop.c3_flat, tt); (Shop.c2, tt)]
                   Shop.start).2 = None)
    by (vm_compute; reflexivity).
  split; [exact Hok|].
  exact (proj2 (clock_reads_count Shop.two_apps_env Shop.two_apps_map
                  [(Shop.c1, tt); (Shop.c3_flat, tt); (Shop.c2, tt)]
                  Shop.start) Hok).
Defined.

Lemma apps_map_entries_witness :
  build_apps_map [Some Shop.app_p; Some Shop.app_q; Some Shop.app_q] ∅
  = inr Shop.two_apps_map
  ∧ (∀ (k : Z) (app : App), Shop.two_apps_map !! k = Some app →
       App_id app = k
       ∧ Some app ∈ [Some Shop.app_p; Some Shop.app_q; Some Shop.app_q])
  ∧ (∀ app : App,
       Some app ∈ [Some Shop.app_p; Some Shop.app_q; Some Shop.app_q] →
       is_Some (Shop.two_apps_map !! App_id app))
  ∧ (∀ (l1 l2 : list (option App)) (app : App),
       [Some Shop.app_p; Some Shop.app_q; Some Shop.app_q]
       = l1 ++ Some app :: l2 →
       (∀ app', Some app' ∈ l2 → App_id app' ≠ App_id app) →
       Shop.two_apps_map !! App_id app = Some app).
Proof.
  assert (Hb : build_apps_map
                 [Some Shop.app_p; Some Shop.app_q; Some Shop.app_q] ∅
               = inr Shop.two_apps_map)
    by (vm_compute; reflexivity).
  split; [exact Hb|].
  exact (apps_map_entries
           [Some Shop.app_p; Some Shop.app_q; Some Shop.app_q]
           Shop.two_apps_map Hb).
Defined.

Lemma example_call_issued : Shop.example_call ∈ issued Shop.example_run.
Proof. vm_compute. left. Qed.

Lemma issued_call_facts_witness :
  Shop.example_call ∈ issued Shop.example_run
  ∧ ∃ cis lis apps ci li (w : Webhook),
      dep_checkouts_info (Shop.deps [Shop.c1; Shop.c2] [Some Shop.app_p])
      = Fulfilled cis
      ∧ dep_lines (Shop.deps [Shop.c1; Shop.c2] [Some Shop.app_p])
        = Fulfilled lis
      ∧ dep_apps (Shop.deps [Shop.c1; Shop.c2] [Some Shop.app_p])
        = Fulfilled apps
      ∧ (ci, li) ∈ zip cis lis
      ∧ w ∈ get_webhooks_for_event Shop.example_env
      ∧ call_checkout Shop.example_call = checkout ci
      ∧ subscription_query w
        = Some (call_subscription_query Shop.example_call)
      ∧ call_subscription_query Shop.example_call ≠ EmptyString
      ∧ App_id (call_app Shop.example_call) = app_id w
      ∧ Some (call_app Shop.example_call) ∈ apps
      ∧ (str_truthy (resolved_tax_app_id Shop.example_env ci li) = false
         ∨ resolved_tax_app_id Shop.example_env ci li
           = Some (identifier (call_app Shop.example_call)))
      ∧ call_triple Shop.example_call
        = (str Shop.example_env (pk (call_checkout Shop.example_call)),
           App_id (call_app Shop.example_call),
           get_subscription_query_hash Shop.example_env
             (call_subscription_query Shop.example_call)).
Proof.
  split; [exact example_call_issued|].
  exact (issued_call_facts Shop.example_env ["c1"; "c2"]
           (Shop.deps [Shop.c1; Shop.c2] [Some Shop.app_p]) Shop.fifo
           Shop.example_call example_call_issued).
Defined.

Lemma returned_payload_provenance_witness :
  outcome Shop.example_run = Fulfilled Shop.example_payloads
  ∧ ∃ (k : string) (c : GenerationCall string),
      ["c1"; "c2"] !! 0%nat = Some k
      ∧ c ∈ issued Shop.example_run
      ∧ call_promise c = Fulfilled (Some Shop.amount_10)
      ∧ Shop.amount_10 ≠ ∅
      ∧ str Shop.example_env (pk (call_checkout c)) = str Shop.example_env k
      ∧ App_id (call_app c) = 7
      ∧ get_subscription_query_hash Shop.example_env
          (call_subscription_query c)
        = "h:subscription { event { taxBase } }".
Proof.
  assert (Hout : outcome Shop.example_run = Fulfilled Shop.example_payloads)
    by (vm_compute; reflexivity).
  split; [exact Hout|].
  refine (returned_payload_provenance Shop.example_env ["c1"; "c2"]
            (Shop.deps [Shop.c1; Shop.c2] [Some Shop.app_p]) Shop.fifo
            Shop.example_payloads 0%nat
            {[ 7 := {[ "h:subscription { event { taxBase } }"
                       := Shop.amount_10 ]} ]}
            7 {[ "h:subscription { event { taxBase } }" := Shop.amount_10 ]}
            "h:subscription { event { taxBase } }" Shop.amount_10
            fifo_permutes Hout eq_refl _ _);
    vm_compute; reflexivity.
Defined.

Lemma returned_payload_complete_witness :
  NoDup (call_triple <$> issued Shop.example_run)
  ∧ outcome Shop.example_run = Fulfilled Shop.example_payloads
  ∧ ∃ (m : NestedMap) (by_hash : gmap string Payload),
      Shop.example_payloads !! 0%nat = Some m
      ∧ m !! call_app_id Shop.example_call = Some by_hash
      ∧ by_hash !! call_query_hash Shop.example_call = Some Shop.amount_10.
Proof.
  assert (Hnd : NoDup (call_triple <$> issued Shop.example_run))
    by (apply (bool_decide_unpack _); vm_compute; exact I).
  assert (Hout : outcome Shop.example_run = Fulfilled Shop.example_payloads)
    by (vm_compute; reflexivity).
  split; [exact Hnd|]. split; [exact Hout|].
  exact (returned_payload_complete Shop.example_env ["c1"; "c2"]
           (Shop.deps [Shop.c1; Shop.c2] [Some Shop.app_p]) Shop.fifo
           Shop.example_payloads Shop.example_call Shop.amount_10 0%nat "c1"
           fifo_permutes Hnd Hout example_call_issued eq_refl
           amount_10_not_empty eq_refl eq_refl).
Defined.

Lemma results_after_return_witness :
  outcome Shop.example_run = Fulfilled Shop.example_payloads
  ∧ (∀ t : string,
       results Shop.example_run !! t
       = match stored Shop.example_run !! t with
         | Some v => Some v
         | None =>
             if decide (t ∈ str Shop.example_env <$> ["c1"; "c2"])
             then Some ∅ else None
         end)
  ∧ (∀ tr : string * Z * string,
       lookup3 (results Shop.example_run) tr
       = lookup3 (stored Shop.example_run) tr)
  ∧ (∀ k : string, k ∈ ["c1"; "c2"] →
       is_Some (results Shop.example_run !! str Shop.example_env k)).
Proof.
  assert (Hout : outcome Shop.example_run = Fulfilled Shop.example_payloads)
    by (vm_compute; reflexivity).
  split; [exact Hout|].
  exact (results_after_return Shop.example_env ["c1"; "c2"]
           (Shop.deps [Shop.c1; Shop.c2] [Some Shop.app_p]) Shop.fifo
           Shop.example_payloads Hout).
Defined.

Lemma no_webhooks_all_empty_witness :
  get_webhooks_for_event Shop.no_webhooks_env = []
  ∧ issued Shop.no_webhooks_run = []
  ∧ outcome Shop.no_webhooks_run
    = Fulfilled (replicate (length ["c1"; "c2"]) ∅).
Proof.
  split; [reflexivity|].
  refine (no_webhooks_all_empty Shop.no_webhooks_env ["c1"; "c2"]
            (Shop.deps [Shop.c1; Shop.c2] []) Shop.fifo
            [Shop.c1; Shop.c2] [tt; tt] []
            fifo_permutes eq_refl eq_refl eq_refl eq_refl _).
  apply not_elem_of_nil.
Defined.

(** With preference [tax.p] and webhooks of the apps [tax.p] and [tax.q],
    [batch_load] issues the call of [tax.p] only; without a preference it
    issues both. *)
Example preference_tie_break_batch :
  call_app_id <$> issued Shop.prefers_p_run = [7]
  ∧ call_app_id <$> issued Shop.no_preference_run = [7; 8].
Proof. split; vm_compute; reflexivity. Qed.

Lemma two_apps_map_covers (w : Webhook) :
  w ∈ get_webhooks_for_event Shop.two_apps_env →
  is_Some (Shop.two_apps_map !! app_id w).
Proof.
  intros Hw.
  repeat (apply elem_of_cons in Hw as [->|Hw];
          [vm_compute; eexists; reflexivity|]).
  by apply elem_of_nil in Hw.
Qed.

Lemma candidate_selection_witness :
  build_apps_map [Some Shop.app_p; Some Shop.app_q; Some Shop.app_q] ∅
  = inr Shop.two_apps_map
  ∧ (∀ w, w ∈ get_webhooks_for_event Shop.two_apps_env →
          is_Some (Shop.two_apps_map !! app_id w))
  ∧ ∃ turns : list (list (GenerationCall string)),
      issued Shop.two_apps_run = concat turns
      ∧ length turns = length (zip [Shop.c1; Shop.c2] [tt; tt])
      ∧ ∀ (j : nat) ci li,
          zip [Shop.c1; Shop.c2] [tt; tt] !! j = Some (ci, li) →
          ∃ new, turns !! j = Some new
            ∧ (eligible Shop.two_apps_env
                 (timezone_now Shop.two_apps_env
                    (turn_clock Shop.two_apps_env
                       (zip [Shop.c1; Shop.c2] [tt; tt]) j)) ci li = true →
               Forall2 (call_of_webhook Shop.two_apps_env Shop.two_apps_map
                          ci) new
                 (filter (λ w, selected_in Shop.two_apps_map
                                 (resolved_tax_app_id Shop.two_apps_env
                                    ci li) w = true)
                    (get_webhooks_for_event Shop.two_apps_env)))
            ∧ (eligible Shop.two_apps_env
                 (timezone_now Shop.two_apps_env
                    (turn_clock Shop.two_apps_env
                       (zip [Shop.c1; Shop.c2] [tt; tt]) j)) ci li = false →
               new = []).
Proof.
  assert (Hb : build_apps_map
                 [Some Shop.app_p; Some Shop.app_q; Some Shop.app_q] ∅
               = inr Shop.two_apps_map)
    by (vm_compute; reflexivity).
  split; [exact Hb|]. split; [exact two_apps_map_covers|].
  exact (proj1 (candidate_selection Shop.two_apps_env ["c1"; "c2"]
                  Shop.two_apps_deps Shop.lifo [Shop.c1; Shop.c2] [tt; tt]
                  [Some Shop.app_p; Some Shop.app_q; Some Shop.app_q]
                  Shop.two_apps_map eq_refl eq_refl eq_refl Hb
                  two_apps_map_covers)).
Defined.

(** C3 fails on the code when the app of a webhook has no record: [c1] is
    eligible at every clock reading and has no preferred tax app, and
    [webhook_p] has a query and its app record, yet no call is issued for
    it, neither when the loader answers [None] for app 8 nor when it leaves
    app 8 out. *)
Lemma selected_candidate_without_call :
  (∀ n : nat,
     eligible Shop.orphan_env (timezone_now Shop.orphan_env n) Shop.c1 tt
     = true)
  ∧ Shop.webhook_p ∈ get_webhooks_for_event Shop.orphan_env
  ∧ str_truthy (subscription_query Shop.webhook_p) = true
  ∧ str_truthy (resolved_tax_app_id Shop.orphan_env Shop.c1 tt) = false
  ∧ issued Shop.orphan_none_run = []
  ∧ outcome Shop.orphan_none_run = Rejected AttributeError
  ∧ issued Shop.orphan_unmapped_run = []
  ∧ outcome Shop.orphan_unmapped_run = Rejected (KeyError 8).
Proof.
  split; [intros n; vm_compute; reflexivity|].
  split; [right; left|].
  repeat split; vm_compute; reflexivity.
Qed.

